(** * Bayesian linear regression with basis functions (PyMC3 notebook)

    A shallow embedding of [Bayesian_Linear_Regression_With_pymc3.ipynb]:
    the basis expansions ([polynomial_basis], [gaussian_basis], [_expand],
    [expand_polynomial], [expand_gaussian]), the model block
    ([w_0], [w_r], [mu], [t_obs] over the shared tensor [Phi_shared]),
    the inference cell and the prediction cell.

    Conventions.
    - NumPy's floating-point arithmetic is idealised as arithmetic on [R];
      the one non-real value the notebook's functions can produce from real
      inputs, SciPy's [nan] for a non-positive scale, is kept ([npfloat]).
      The cast [.astype(np.float32)] is the identity in this idealisation.
    - A Python exception is a value of [exn]; code that can raise returns
      [result].
    - A 2-D array carries its [shape], as in NumPy, so that an array with
      no rows still has a column count. *)

From Stdlib Require Import Reals List ZArith Lia Lra Bool.
Import ListNotations.
Open Scope R_scope.

(** ** Exceptions *)

Inductive exn : Type :=
| ValueError
| IndexError
| NameError.

Inductive result (A : Type) : Type :=
| Ok (a : A)
| Raise (e : exn).

Arguments Ok {A} a.
Arguments Raise {A} e.

Definition bind {A B : Type} (c : result A) (k : A -> result B) : result B :=
  match c with
  | Ok a => k a
  | Raise e => Raise e
  end.

Notation "x <- c ;; k" := (bind c (fun x => k))
  (at level 61, c at next level, right associativity).

(** ** NumPy *)

Module np.

(** A 1-D array of floats. *)
Definition ndarray1 : Type := list R.

(** A 2-D array: [rows] holds [fst shape] lists of [snd shape] entries. *)
Record ndarray2 (A : Type) : Type := mk_ndarray2 {
  shape : nat * nat;
  rows : list (list A)
}.

Arguments mk_ndarray2 {A} shape rows.
Arguments shape {A} n.
Arguments rows {A} n.

Definition well_shaped {A : Type} (a : ndarray2 A) : Prop :=
  length (rows a) = fst (shape a) /\
  Forall (fun r => length r = snd (shape a)) (rows a).

(** [a[:, j]], with [d] where a row is too short. *)
Definition column {A : Type} (d : A) (a : ndarray2 A) (j : nat) : list A :=
  map (fun r => nth j r d) (rows a).

(** Python's [range(start, stop)]. *)
Definition range (start stop : Z) : list Z :=
  map (fun k => (start + Z.of_nat k)%Z) (seq 0 (Z.to_nat (stop - start))).

(** [np.linspace(start, stop, num)], end point included. *)
Definition linspace (start stop : R) (num : nat) : ndarray1 :=
  map (fun k => start + INR k * ((stop - start) / INR (num - 1))) (seq 0 num).

(** Puts one more column in front of the rows built so far. *)
Definition zip_cons {A : Type} (col : list A) (acc : list (list A))
  : list (list A) :=
  map (fun p => fst p :: snd p) (combine col acc).

(** The [n] rows whose [j]-th entries are the entries of the [j]-th
    column. *)
Definition rows_of_columns {A : Type} (n : nat) (cols : list (list A))
  : list (list A) :=
  fold_right zip_cons (repeat [] n) cols.

(** [np.stack(arrays, axis=1)] on 1-D arrays: the arrays become the
    columns of the result.  NumPy raises [ValueError] on an empty
    sequence ("need at least one array to stack") and when the arrays
    differ in shape. *)
Definition stack_axis1 {A : Type} (arrays : list (list A))
  : result (ndarray2 A) :=
  match arrays with
  | [] => Raise ValueError
  | a0 :: rest =>
      if forallb (fun a => Nat.eqb (length a) (length a0)) rest
      then Ok (mk_ndarray2 (length a0, length arrays)
                           (rows_of_columns (length a0) arrays))
      else Raise ValueError
  end.

(** [np.vstack((a, b))] on 2-D arrays. *)
Definition vstack {A : Type} (a b : ndarray2 A) : result (ndarray2 A) :=
  if Nat.eqb (snd (shape a)) (snd (shape b))
  then Ok (mk_ndarray2 ((fst (shape a) + fst (shape b))%nat, snd (shape a))
                       (rows a ++ rows b))
  else Raise ValueError.

(** [a.T]. *)
Definition T {A : Type} (a : ndarray2 A) : ndarray2 A :=
  mk_ndarray2 (snd (shape a), fst (shape a))
              (rows_of_columns (snd (shape a)) (rows a)).

End np.

(** ** SciPy: [scipy.stats.norm] *)

Inductive npfloat : Type :=
| finite (r : R)
| nan.

Module stats.

(** The standard normal density, [norm._pdf]. *)
Definition _norm_pdf (y : R) : R := exp (- (y * y) / 2) / sqrt (2 * PI).

(** [norm(loc=loc, scale=scale).pdf(x)]: the density of the standardised
    value over the scale; [nan] ([badvalue]) when the scale is not
    positive.  No exception is raised. *)
Definition norm_pdf (loc scale x : R) : npfloat :=
  if Rlt_dec 0 scale
  then finite (_norm_pdf ((x - loc) / scale) / scale)
  else nan.

End stats.

(** ** The notebook: basis functions *)

(** [x ** power], elementwise. *)
Definition polynomial_basis (x : np.ndarray1) (power : Z) : np.ndarray1 :=
  map (fun v => powerRZ v power) x.

(** [norm(loc=mu, scale=sigma).pdf(x).astype(np.float32)], elementwise. *)
Definition gaussian_basis (x : np.ndarray1) (mu sigma : R) : list npfloat :=
  map (fun v => stats.norm_pdf mu sigma v) x.

Definition _expand {A B : Type} (x : np.ndarray1)
    (bf : np.ndarray1 -> B -> list A) (bf_args : list B)
  : result (np.ndarray2 A) :=
  np.stack_axis1 (map (fun bf_arg => bf x bf_arg) bf_args).

Definition expand_polynomial (x : np.ndarray1) (degree : Z)
  : result (np.ndarray2 R) :=
  _expand x polynomial_basis (np.range 1 (degree + 1)).

Definition expand_gaussian (x : np.ndarray1) (mus : np.ndarray1) (sigma : R)
  : result (np.ndarray2 npfloat) :=
  _expand x (fun x' mu => gaussian_basis x' mu sigma) mus.

(** The default arguments of the two expansions. *)
Definition default_degree : Z := 3.
Definition default_mus : np.ndarray1 := np.linspace 0 1 9.
Definition default_sigma : R := 3 / 10.

(** ** NumPy's global random state

    The generator is a position in the sequence of standard-normal
    variates it is going to deliver. *)

Module random.

Record RandomState : Type := mk_RandomState {
  stream : nat -> R;
  pos : nat
}.

(** [standard_normal(size)]: the next [size] variates, and the state
    after them. *)
Definition standard_normal (rs : RandomState) (size : nat)
  : list R * RandomState :=
  (map (fun k => stream rs (pos rs + k)) (seq 0 size),
   mk_RandomState (stream rs) (pos rs + size)).

End random.

(** ** Theano *)

Module theano.

(** [shared(value)]: a container with its own copy of [value]; whoever
    holds the container sees the value it currently holds. *)
Record shared : Type := mk_shared {
  get_value : np.ndarray2 R
}.

Definition set_value (s : shared) (v : np.ndarray2 R) : shared :=
  mk_shared v.

Definition scale (c : R) (r : list R) : list R := map (Rmult c) r.

Definition vadd (a b : list R) : list R :=
  map (fun p => fst p + snd p) (combine a b).

(** [v.dot(A)] for a vector [v] and a matrix [A]: the combination of the
    rows of [A] with the entries of [v] as coefficients; [ValueError] when
    [len(v)] is not the row count of [A]. *)
Definition dot (v : list R) (A : np.ndarray2 R) : result (list R) :=
  if Nat.eqb (length v) (fst (np.shape A))
  then Ok (fold_right vadd (repeat 0 (snd (np.shape A)))
             (map (fun p => scale (fst p) (snd p)) (combine v (np.rows A))))
  else Raise ValueError.

End theano.

(** ** PyMC3 *)

Module pm.

(** A log-probability: a real, or minus infinity. *)
Inductive logprob : Type :=
| LogP (r : R)
| NegInf.

Definition lp_add (a b : logprob) : logprob :=
  match a, b with
  | LogP u, LogP v => LogP (u + v)
  | _, _ => NegInf
  end.

Definition lp_sum (l : list logprob) : logprob := fold_right lp_add (LogP 0) l.

(** [pm.Normal(mu, sigma)]. *)
Record Normal : Type := mk_Normal {
  Normal_mu : R;
  Normal_sigma : R
}.

(** [Normal.logp(value)]: the log of the density
    [sqrt(tau / (2 pi)) * exp(- tau / 2 * (value - mu)^2)], with
    [tau = sigma^-2], bounded to [sigma > 0]. *)
Definition Normal_logp (d : Normal) (value : R) : logprob :=
  let tau := / (Normal_sigma d * Normal_sigma d) in
  if Rlt_dec 0 (Normal_sigma d)
  then LogP ((- tau * ((value - Normal_mu d) * (value - Normal_mu d))
              + ln (tau / PI / 2)) / 2)
  else NegInf.

(** [Normal.random]: a standard-normal variate [z], scaled and shifted. *)
Definition Normal_random (d : Normal) (z : R) : R :=
  Normal_mu d + Normal_sigma d * z.

(** A point of the trace: a value for each free variable of the model. *)
Record point : Type := mk_point {
  w_0 : R;
  w_r : list R
}.

(** The model of the notebook's [with pm.Model() as model:] block. *)
Record Model : Type := mk_Model {
  w_0_dist : Normal;
  w_r_dist : Normal;
  w_r_shape : nat;
  mu : theano.shared -> point -> result (list R);
  t_obs_sigma : R;
  observed : list R
}.

(** The log joint density of the model at a point ([model.logp]): the sum
    of the log-densities of every variable, free and observed, each
    summed over its entries.  The deterministic [mu] is evaluated on the
    value the shared tensor holds. *)
Definition logp (model : Model) (Phi_shared : theano.shared) (p : point)
  : result logprob :=
  mus <- mu model Phi_shared p ;;
  if Nat.eqb (length mus) (length (observed model))
  then Ok (lp_add (Normal_logp (w_0_dist model) (w_0 p))
          (lp_add (lp_sum (map (Normal_logp (w_r_dist model)) (w_r p)))
                  (lp_sum (map (fun mt =>
                                  Normal_logp (mk_Normal (fst mt) (t_obs_sigma model))
                                              (snd mt))
                               (combine mus (observed model))))))
  else Raise ValueError.

(** One posterior predictive draw of [t_obs] at a point of the trace: one
    value per entry of [mu]. *)
Definition draw_t_obs (model : Model) (Phi_shared : theano.shared)
    (param : point) (rs : random.RandomState)
  : result (list R * random.RandomState) :=
  mus <- mu model Phi_shared param ;;
  let zs := random.standard_normal rs (length mus) in
  Ok (map (fun mz => Normal_random (mk_Normal (fst mz) (t_obs_sigma model))
                                   (snd mz))
          (combine mus (fst zs)),
      snd zs).

(** The loop of [sample_posterior_predictive] over [indices]: draw [idx]
    uses the point [trace[idx % len(trace)]]. *)
Fixpoint ppc_loop (trace : list point) (model : Model)
    (Phi_shared : theano.shared) (indices : list nat)
    (rs : random.RandomState)
  : result (list (list R) * random.RandomState) :=
  match indices with
  | [] => Ok ([], rs)
  | idx :: rest =>
      match nth_error trace (idx mod length trace) with
      | None => Raise IndexError
      | Some param =>
          v <- draw_t_obs model Phi_shared param rs ;;
          r <- ppc_loop trace model Phi_shared rest (snd v) ;;
          Ok (fst v :: fst r, snd r)
      end
  end.

(** [pm.sample_posterior_predictive(trace, model=model, samples=samples)['t_obs']]:
    an array with one row per draw. *)
Definition sample_posterior_predictive (trace : list point) (model : Model)
    (Phi_shared : theano.shared) (samples : nat) (rs : random.RandomState)
  : result (list (list R) * random.RandomState) :=
  ppc_loop trace model Phi_shared (seq 0 samples) rs.

End pm.

(** ** The notebook: model, inference, prediction *)

(** [mu = w_0 + w_r.dot(Phi_shared.T)]: an expression over the shared
    tensor, evaluated on the value the tensor holds at that moment. *)
Definition mu (Phi_shared : theano.shared) (p : pm.point) : result (list R) :=
  d <- theano.dot (pm.w_r p) (np.T (theano.get_value Phi_shared)) ;;
  Ok (map (Rplus (pm.w_0 p)) d).

(** The [with pm.Model() as model:] block. *)
Definition build_model (Phi : np.ndarray2 R) (noise : R) (t : np.ndarray1)
  : pm.Model :=
  pm.mk_Model (pm.mk_Normal 0 10)
              (pm.mk_Normal 0 10)
              (snd (np.shape Phi))
              mu
              noise
              t.

(** [np.asarray] of a list of equally long rows. *)
Definition np_asarray (l : list (list R)) : np.ndarray2 R :=
  np.mk_ndarray2 (length l, length (hd [] l)) l.

(** [np.mean(a, axis=0)]: one mean per column. *)
Definition np_mean_axis0 (a : np.ndarray2 R) : list R :=
  map (fun j => fold_right Rplus 0 (np.column 0 a j) / INR (fst (np.shape a)))
      (seq 0 (snd (np.shape a))).

(** The number of draws asked of [sample_posterior_predictive]. *)
Definition samples : nat := 5000.

(** The global names of the notebook.  [expand], [noise], [x], [t] and
    [x_test] are bound before the model cell; the others are unbound
    ([None]) until the statement that assigns them has run. *)
Record notebook : Type := mk_notebook {
  expand : np.ndarray1 -> result (np.ndarray2 R);
  noise : R;
  x : np.ndarray1;
  t : np.ndarray1;
  x_test : np.ndarray1;
  random_state : random.RandomState;
  Phi : option (np.ndarray2 R);
  Phi_shared : option theano.shared;
  model : option pm.Model;
  trace : option (list pm.point);
  predictive_samples : option (np.ndarray2 R);
  m : option (list R)
}.

(** The notebook as it stands before the model cell, with the expansion
    chosen in the first cell ([expand = expand_polynomial]). *)
Definition fresh (degree : Z) (noise : R) (x t x_test : np.ndarray1)
    (rs : random.RandomState) : notebook :=
  mk_notebook (fun x' => expand_polynomial x' degree) noise x t x_test rs
              None None None None None None.

Definition set_random_state (nb : notebook) (v : random.RandomState) : notebook :=
  mk_notebook (expand nb) (noise nb) (x nb) (t nb) (x_test nb) v
              (Phi nb) (Phi_shared nb) (model nb) (trace nb)
              (predictive_samples nb) (m nb).

Definition set_Phi (nb : notebook) (v : np.ndarray2 R) : notebook :=
  mk_notebook (expand nb) (noise nb) (x nb) (t nb) (x_test nb) (random_state nb)
              (Some v) (Phi_shared nb) (model nb) (trace nb)
              (predictive_samples nb) (m nb).

Definition set_Phi_shared (nb : notebook) (v : theano.shared) : notebook :=
  mk_notebook (expand nb) (noise nb) (x nb) (t nb) (x_test nb) (random_state nb)
              (Phi nb) (Some v) (model nb) (trace nb)
              (predictive_samples nb) (m nb).

Definition set_model (nb : notebook) (v : pm.Model) : notebook :=
  mk_notebook (expand nb) (noise nb) (x nb) (t nb) (x_test nb) (random_state nb)
              (Phi nb) (Phi_shared nb) (Some v) (trace nb)
              (predictive_samples nb) (m nb).

Definition set_trace (nb : notebook) (v : list pm.point) : notebook :=
  mk_notebook (expand nb) (noise nb) (x nb) (t nb) (x_test nb) (random_state nb)
              (Phi nb) (Phi_shared nb) (model nb) (Some v)
              (predictive_samples nb) (m nb).

Definition set_predictive_samples (nb : notebook) (v : np.ndarray2 R)
  : notebook :=
  mk_notebook (expand nb) (noise nb) (x nb) (t nb) (x_test nb) (random_state nb)
              (Phi nb) (Phi_shared nb) (model nb) (trace nb)
              (Some v) (m nb).

Definition set_m (nb : notebook) (v : list R) : notebook :=
  mk_notebook (expand nb) (noise nb) (x nb) (t nb) (x_test nb) (random_state nb)
              (Phi nb) (Phi_shared nb) (model nb) (trace nb)
              (predictive_samples nb) (Some v).

(** The sampler behind [pm.sample()]: from the model, the value its
    shared tensor holds and the random state, a trace and the random
    state after sampling. *)
Definition sampler : Type :=
  pm.Model -> theano.shared -> random.RandomState
  -> list pm.point * random.RandomState.

(** [Phi = expand(x)] *)
Definition stmt_Phi (nb : notebook) : result notebook :=
  v <- expand nb (x nb) ;;
  Ok (set_Phi nb v).

(** [Phi_shared = shared(Phi)] *)
Definition stmt_Phi_shared (nb : notebook) : result notebook :=
  match Phi nb with
  | Some v => Ok (set_Phi_shared nb (theano.mk_shared v))
  | None => Raise NameError
  end.

(** [with pm.Model() as model: ...] *)
Definition stmt_model (nb : notebook) : result notebook :=
  match Phi nb, Phi_shared nb with
  | Some v, Some _ => Ok (set_model nb (build_model v (noise nb) (t nb)))
  | _, _ => Raise NameError
  end.

(** [with model: trace = pm.sample()] *)
Definition stmt_sample (pm_sample : sampler) (nb : notebook) : result notebook :=
  match model nb, Phi_shared nb with
  | Some mo, Some ps =>
      let r := pm_sample mo ps (random_state nb) in
      Ok (set_trace (set_random_state nb (snd r)) (fst r))
  | _, _ => Raise NameError
  end.

(** [Phi_shared.set_value(expand(x_test))] *)
Definition stmt_set_value (nb : notebook) : result notebook :=
  match Phi_shared nb with
  | Some ps =>
      v <- expand nb (x_test nb) ;;
      Ok (set_Phi_shared nb (theano.set_value ps v))
  | None => Raise NameError
  end.

(** [predictive_samples = pm.sample_posterior_predictive(trace,
    model=model, samples=5000)['t_obs']] *)
Definition stmt_predict (nb : notebook) : result notebook :=
  match trace nb, model nb, Phi_shared nb with
  | Some tr, Some mo, Some ps =>
      r <- pm.sample_posterior_predictive tr mo ps samples (random_state nb) ;;
      Ok (set_predictive_samples (set_random_state nb (snd r))
                                 (np_asarray (fst r)))
  | _, _, _ => Raise NameError
  end.

(** [m = np.mean(predictive_samples, axis=0)] *)
Definition stmt_m (nb : notebook) : result notebook :=
  match predictive_samples nb with
  | Some ps => Ok (set_m nb (np_mean_axis0 ps))
  | None => Raise NameError
  end.

(** Runs statements in order; the first exception stops the run and the
    names bound so far stay as they are. *)
Fixpoint run (stmts : list (notebook -> result notebook)) (nb : notebook)
  : notebook * option exn :=
  match stmts with
  | [] => (nb, None)
  | s :: rest =>
      match s nb with
      | Ok nb' => run rest nb'
      | Raise e => (nb, Some e)
      end
  end.

Definition model_cell : list (notebook -> result notebook) :=
  [stmt_Phi; stmt_Phi_shared; stmt_model].

Definition inference_cell (pm_sample : sampler)
  : list (notebook -> result notebook) :=
  [stmt_sample pm_sample].

Definition prediction_cell : list (notebook -> result notebook) :=
  [stmt_set_value; stmt_predict].

Definition summary_cell : list (notebook -> result notebook) :=
  [stmt_m].

Definition run_all (pm_sample : sampler) (nb : notebook)
  : notebook * option exn :=
  run (model_cell ++ inference_cell pm_sample ++ prediction_cell
       ++ summary_cell) nb.

(** What [pm.sample()] promises about its trace: it is not empty, and
    every point gives [w_r] the shape the model declares for it. *)
Definition sampler_contract (pm_sample : sampler) : Prop :=
  forall mo ps rs,
    fst (pm_sample mo ps rs) <> [] /\
    forall p, In p (fst (pm_sample mo ps rs)) ->
              length (pm.w_r p) = pm.w_r_shape mo.

(** A sampler that never leaves the model's initial point (all zeros, of
    the declared shapes), and a random stream of zeros: enough to run the
    notebook on examples. *)
Definition init_sampler : sampler :=
  fun mo _ rs => ([pm.mk_point 0 (repeat 0 (pm.w_r_shape mo))], rs).

Definition zero_state : random.RandomState :=
  random.mk_RandomState (fun _ => 0) 0.

(** ** The specification's formulas *)

(** The log-density of Normal(m, s) at [v]. *)
Definition normal_logpdf (m s v : R) : R :=
  - ln (s * sqrt (2 * PI)) - (v - m) * (v - m) / (2 * (s * s)).

(** [a . b] *)
Definition dot_product (a b : list R) : R :=
  fold_right Rplus 0 (map (fun p => fst p * snd p) (combine a b)).

Definition Rsum (l : list R) : R := fold_right Rplus 0 l.

(** The log joint density in the specification's words: the prior terms
    of [w0] and of each component of [w], and one likelihood term per
    observation, with the row [Phi_i] of the design matrix. *)
Definition spec_log_joint (sigma_prior sigma_obs : R)
    (Phi : list (list R)) (t : list R) (w0 : R) (w : list R) : R :=
  normal_logpdf 0 sigma_prior w0
  + Rsum (map (normal_logpdf 0 sigma_prior) w)
  + Rsum (map (fun pt => normal_logpdf (w0 + dot_product w (fst pt))
                                       sigma_obs (snd pt))
              (combine Phi t)).

(** The non-normalised Gaussian bump of the specification. *)
Definition gaussian_bump (center bandwidth v : R) : R :=
  exp (- ((v - center) * (v - center)) / (2 * (bandwidth * bandwidth))).

(** The Gaussian basis function of the notebook, for a positive scale:
    the bump over [sigma * sqrt (2 pi)]. *)
Definition gaussian_density (center bandwidth v : R) : R :=
  gaussian_bump center bandwidth v / (bandwidth * sqrt (2 * PI)).

(** ** The notebook: example dataset and summary *)

(** [f(x, noise)]: the sinusoid [0.5 + sin(2 pi x)] plus
    [np.random.normal(scale=noise, size=x.shape)], which is
    [0 + noise * z] on the next [len(x)] variates, whatever [noise] is,
    and raises [ValueError] for a negative scale. *)
Definition f (x : np.ndarray1) (noise : R) (rs : random.RandomState)
  : result (np.ndarray1 * random.RandomState) :=
  if Rlt_dec noise 0
  then Raise ValueError
  else
    let zs := random.standard_normal rs (length x) in
    Ok (map (fun vz => 1 / 2 + sin (2 * PI * fst vz) + (0 + noise * snd vz))
            (combine x (fst zs)),
        snd zs).

Module data.

(** Number of samples *)
Definition N : nat := 10.

(** Constant noise *)
Definition noise : R := 3 / 10.

(** [x = np.linspace(0, 1, N)] *)
Definition x : np.ndarray1 := np.linspace 0 1 N.

(** [x_test = np.linspace(0, 1, 100)] *)
Definition x_test : np.ndarray1 := np.linspace 0 1 100.

End data.

(** The data cell: [t = f(x, noise=noise)], then [y_true = f(x_test)];
    the notebook it leaves, with the default expansion, and [y_true]. *)
Definition data_cell (rs : random.RandomState)
  : result (notebook * np.ndarray1) :=
  ts <- f data.x data.noise rs ;;
  ys <- f data.x_test 0 (snd ts) ;;
  Ok (fresh default_degree data.noise data.x (fst ts) data.x_test (snd ys),
      fst ys).

(** [s = np.std(predictive_samples, axis=0)]: per column, the root of the
    mean squared deviation from the column mean. *)
Definition np_std_axis0 (a : np.ndarray2 R) : list R :=
  map (fun j =>
         let col := np.column 0 a j in
         let mean := fold_right Rplus 0 col / INR (fst (np.shape a)) in
         sqrt (fold_right Rplus 0
                 (map (fun v => (v - mean) * (v - mean)) col)
               / INR (fst (np.shape a))))
      (seq 0 (snd (np.shape a))).

(** * Properties *)

(** ** Stacking columns *)

Lemma repeat_nil_map {A B : Type} (l : list B) :
  repeat (@nil A) (length l) = map (fun _ => []) l.
Proof. induction l as [|b l IH]; simpl; [reflexivity | now rewrite IH]. Qed.

Lemma zip_cons_map {A B : Type} (f : B -> A) (g : B -> list A) (l : list B) :
  np.zip_cons (map f l) (map g l) = map (fun v => f v :: g v) l.
Proof.
  unfold np.zip_cons.
  induction l as [|b l IH]; simpl; [reflexivity | now rewrite IH].
Qed.

Lemma rows_of_columns_pointwise {A B C : Type} (f : C -> B -> A)
    (l : list B) (args : list C) :
  np.rows_of_columns (length l) (map (fun a => map (f a) l) args)
  = map (fun v => map (fun a => f a v) args) l.
Proof.
  unfold np.rows_of_columns.
  induction args as [|a args IH]; simpl.
  - apply repeat_nil_map.
  - rewrite IH. apply zip_cons_map.
Qed.

Lemma forallb_same_length {A B C : Type} (f : C -> B -> A) (l : list B)
    (n : nat) (args : list C) :
  n = length l ->
  forallb (fun a => Nat.eqb (length a) n) (map (fun a => map (f a) l) args)
  = true.
Proof.
  intros ->. induction args as [|a args IH]; simpl; [reflexivity|].
  rewrite length_map, Nat.eqb_refl. exact IH.
Qed.

Lemma _expand_empty {A B : Type} (x : np.ndarray1)
    (bf : np.ndarray1 -> B -> list A) :
  _expand x bf [] = Raise ValueError.
Proof. reflexivity. Qed.

(** For a basis function that works elementwise, row [i] of the expansion
    holds the basis functions at [x_i]. *)
Lemma _expand_pointwise {A B : Type} (bf : np.ndarray1 -> B -> list A)
    (f : B -> R -> A) (x : np.ndarray1) (bf_args : list B) :
  (forall x' a, bf x' a = map (f a) x') ->
  bf_args <> [] ->
  _expand x bf bf_args
  = Ok (np.mk_ndarray2 (length x, length bf_args)
          (map (fun v => map (fun a => f a v) bf_args) x)).
Proof.
  intros Hbf Hne. unfold _expand.
  destruct bf_args as [|a0 args]; [contradiction|].
  assert (Hm : map (fun bf_arg => bf x bf_arg) (a0 :: args)
               = map (fun a => map (f a) x) (a0 :: args)).
  { apply map_ext. intros a. apply Hbf. }
  rewrite Hm. cbn [map np.stack_axis1].
  rewrite (forallb_same_length f x) by now rewrite length_map.
  rewrite !length_map. cbn [length].
  change (map (f a0) x :: map (fun a => map (f a) x) args)
    with (map (fun a => map (f a) x) (a0 :: args)).
  rewrite rows_of_columns_pointwise. rewrite length_map. reflexivity.
Qed.

Lemma range_from_1 (degree : Z) :
  np.range 1 (degree + 1)
  = map (fun k => Z.of_nat (S k)) (seq 0 (Z.to_nat degree)).
Proof.
  unfold np.range. replace (degree + 1 - 1)%Z with degree by lia.
  apply map_ext. intros k. lia.
Qed.

Lemma range_empty (degree : Z) :
  (degree < 1)%Z -> np.range 1 (degree + 1) = [].
Proof.
  intros H. unfold np.range.
  replace (Z.to_nat (degree + 1 - 1)) with 0%nat by lia. reflexivity.
Qed.

Lemma range_nonempty (degree : Z) :
  (1 <= degree)%Z -> np.range 1 (degree + 1) <> [].
Proof.
  intros H. rewrite range_from_1.
  destruct (Z.to_nat degree) eqn:E; [lia | discriminate].
Qed.

Lemma length_range_from_1 (degree : Z) :
  length (np.range 1 (degree + 1)) = Z.to_nat degree.
Proof. rewrite range_from_1, length_map, length_seq. reflexivity. Qed.

Lemma polynomial_basis_pointwise (x : np.ndarray1) (power : Z) :
  polynomial_basis x power = map ((fun p v => powerRZ v p) power) x.
Proof. reflexivity. Qed.

Lemma gaussian_basis_pointwise (sigma : R) (x : np.ndarray1) (mu0 : R) :
  (fun x' c => gaussian_basis x' c sigma) x mu0
  = map ((fun c v => stats.norm_pdf c sigma v) mu0) x.
Proof. reflexivity. Qed.

(** The polynomial design matrix, in closed form. *)
Lemma expand_polynomial_rows (x : np.ndarray1) (degree : Z) :
  (1 <= degree)%Z ->
  expand_polynomial x degree
  = Ok (np.mk_ndarray2 (length x, Z.to_nat degree)
          (map (fun v => map (fun p => powerRZ v p) (np.range 1 (degree + 1)))
               x)).
Proof.
  intros H. unfold expand_polynomial.
  rewrite (_expand_pointwise polynomial_basis (fun p v => powerRZ v p)).
  - rewrite length_range_from_1. reflexivity.
  - intros. apply polynomial_basis_pointwise.
  - now apply range_nonempty.
Qed.

(** The Gaussian design matrix, in closed form. *)
Lemma expand_gaussian_rows (x mus : np.ndarray1) (sigma : R) :
  mus <> [] ->
  expand_gaussian x mus sigma
  = Ok (np.mk_ndarray2 (length x, length mus)
          (map (fun v => map (fun c => stats.norm_pdf c sigma v) mus) x)).
Proof.
  intros H. unfold expand_gaussian.
  now rewrite (_expand_pointwise _ (fun c v => stats.norm_pdf c sigma v)).
Qed.

Lemma pointwise_well_shaped {A B : Type} (g : R -> B -> A) (x : np.ndarray1)
    (args : list B) :
  np.well_shaped (np.mk_ndarray2 (length x, length args)
                    (map (fun v => map (g v) args) x)).
Proof.
  split; cbn.
  - apply length_map.
  - apply Forall_forall. intros r Hr. apply in_map_iff in Hr.
    destruct Hr as [v [<- _]]. apply length_map.
Qed.

(** ** Polynomial expansion *)

Lemma nth_range_from_1 (degree : Z) (k : nat) (d : Z) :
  (k < Z.to_nat degree)%nat ->
  nth k (np.range 1 (degree + 1)) d = Z.of_nat (S k).
Proof.
  intros H. rewrite range_from_1.
  rewrite (nth_indep _ d (Z.of_nat (S 0))) by now rewrite length_map, length_seq.
  rewrite (map_nth (fun k => Z.of_nat (S k))). now rewrite seq_nth.
Qed.

Lemma nth_polynomial_row (v : R) (degree : Z) (k : nat) :
  (k < Z.to_nat degree)%nat ->
  nth k (map (fun p => powerRZ v p) (np.range 1 (degree + 1))) 0 = v ^ S k.
Proof.
  intros H.
  rewrite (nth_indep _ 0 (powerRZ v 0))
    by now rewrite length_map, length_range_from_1.
  rewrite (map_nth (fun p => powerRZ v p)).
  rewrite nth_range_from_1 by assumption.
  symmetry. apply pow_powerRZ.
Qed.

(** C2.  For a degree of at least 1 (and an input of any length N, so for
    every N >= 1), [expand_polynomial] returns an N x degree matrix whose
    column j, counted from 1, is x^j elementwise; its first column is x
    itself: there is no column of the power 0. *)
Theorem expand_polynomial_columns (x : np.ndarray1) (degree : Z) :
  (1 <= degree)%Z ->
  exists Phi,
    expand_polynomial x degree = Ok Phi /\
    np.shape Phi = (length x, Z.to_nat degree) /\
    np.well_shaped Phi /\
    (forall j, (1 <= j <= Z.to_nat degree)%nat ->
               np.column 0 Phi (j - 1) = map (fun v => v ^ j) x) /\
    np.column 0 Phi 0 = x.
Proof.
  intros Hd. eexists. split; [now apply expand_polynomial_rows|].
  split; [reflexivity|]. split.
  - rewrite <- (length_range_from_1 degree).
    apply (pointwise_well_shaped (fun v p => powerRZ v p)).
  - assert (Hcol : forall j, (1 <= j <= Z.to_nat degree)%nat ->
               np.column 0
                 (np.mk_ndarray2 (length x, Z.to_nat degree)
                    (map (fun v => map (fun p => powerRZ v p)
                                       (np.range 1 (degree + 1))) x))
                 (j - 1)
               = map (fun v => v ^ j) x).
    { intros j Hj. unfold np.column. cbn [np.rows]. rewrite map_map.
      apply map_ext. intros v.
      rewrite nth_polynomial_row by lia.
      replace (S (j - 1)) with j by lia. reflexivity. }
    split; [exact Hcol|].
    pose proof (Hcol 1%nat ltac:(lia)) as H1. cbn [Nat.sub] in H1.
    rewrite H1. rewrite <- (map_id x) at 2. apply map_ext. intros v. apply pow_1.
Qed.

Lemma expand_polynomial_columns_witness :
  (1 <= 3)%Z /\
  exists Phi,
    expand_polynomial [1 / 2; 3 / 2] 3 = Ok Phi /\
    np.shape Phi = (2%nat, 3%nat) /\
    np.well_shaped Phi /\
    (forall j, (1 <= j <= 3)%nat ->
               np.column 0 Phi (j - 1) = map (fun v => v ^ j) [1 / 2; 3 / 2]) /\
    np.column 0 Phi 0 = [1 / 2; 3 / 2].
Proof.
  split; [lia|]. apply (expand_polynomial_columns [1 / 2; 3 / 2] 3). lia.
Defined.

(** ** Gaussian expansion *)

Lemma sqrt_2PI_gt_1 : 1 < sqrt (2 * PI).
Proof.
  rewrite <- sqrt_1 at 1. apply sqrt_lt_1; [lra | | ].
  - pose proof PI_RGT_0. lra.
  - pose proof PI2_1. lra.
Qed.

Lemma sqrt_2PI_pos : 0 < sqrt (2 * PI).
Proof. pose proof sqrt_2PI_gt_1. lra. Qed.

(** For a positive scale SciPy's density is the bump over
    [sigma * sqrt (2 pi)]. *)
Lemma norm_pdf_density (c sigma v : R) :
  0 < sigma ->
  stats.norm_pdf c sigma v = finite (gaussian_density c sigma v).
Proof.
  intros Hs. unfold stats.norm_pdf.
  destruct (Rlt_dec 0 sigma) as [_|Hn]; [|contradiction].
  f_equal. unfold stats._norm_pdf, gaussian_density, gaussian_bump.
  pose proof sqrt_2PI_pos as Hq.
  replace (- ((v - c) / sigma * ((v - c) / sigma)) / 2)
    with (- ((v - c) * (v - c)) / (2 * (sigma * sigma)))
    by (field; lra).
  field. split; lra.
Qed.

Lemma norm_pdf_bad_scale (c sigma v : R) :
  sigma <= 0 -> stats.norm_pdf c sigma v = nan.
Proof.
  intros Hs. unfold stats.norm_pdf.
  destruct (Rlt_dec 0 sigma) as [Hp|_]; [lra | reflexivity].
Qed.

Lemma gaussian_bump_center (c b : R) : gaussian_bump c b c = 1.
Proof.
  unfold gaussian_bump.
  replace (- ((c - c) * (c - c)) / (2 * (b * b))) with 0.
  - apply exp_0.
  - unfold Rdiv. ring.
Qed.

Lemma gaussian_bump_decreasing (c b u v : R) :
  0 < b -> Rabs (u - c) < Rabs (v - c) ->
  gaussian_bump c b v < gaussian_bump c b u.
Proof.
  intros Hb Hlt. unfold gaussian_bump. apply exp_increasing.
  apply Rsqr_lt_abs_1 in Hlt. unfold Rsqr in Hlt.
  assert (Hden : 0 < / (2 * (b * b))) by (apply Rinv_0_lt_compat; nra).
  unfold Rdiv. nra.
Qed.

Lemma gaussian_bump_le_1 (c b v : R) : 0 < b -> gaussian_bump c b v <= 1.
Proof.
  intros Hb. destruct (Req_dec v c) as [->|Hne].
  - rewrite gaussian_bump_center. lra.
  - rewrite <- (gaussian_bump_center c b). left.
    apply gaussian_bump_decreasing; [assumption|].
    replace (c - c) with 0 by ring. rewrite Rabs_R0.
    apply Rabs_pos_lt. lra.
Qed.

Lemma nth_map_in_range {A B : Type} (f : A -> B) (l : list A) (j : nat)
    (a : A) (d : B) :
  nth_error l j = Some a -> nth j (map f l) d = f a.
Proof.
  intros H.
  assert (Hlen : (j < length l)%nat) by (apply nth_error_Some; congruence).
  rewrite (nth_indep _ d (f a)) by now rewrite length_map.
  rewrite map_nth. f_equal. now apply nth_error_nth.
Qed.

(** C3, as the code has it.  For centres c_1..c_M and a bandwidth b > 0,
    column j of the Gaussian design matrix is the normal density
    exp(-(x - c_j)^2 / (2 b^2)) / (b sqrt(2 pi)): the bump of the
    specification over the constant b sqrt(2 pi).  It is largest at
    x = c_j, where it is 1 / (b sqrt(2 pi)), and strictly decreasing as
    |x - c_j| grows. *)
Theorem expand_gaussian_columns (x mus : np.ndarray1) (sigma : R)
    (j : nat) (c : R) :
  0 < sigma ->
  nth_error mus j = Some c ->
  (exists Phi,
      expand_gaussian x mus sigma = Ok Phi /\
      np.column nan Phi j
      = map (fun v => finite (gaussian_bump c sigma v / (sigma * sqrt (2 * PI))))
            x) /\
  gaussian_density c sigma c = 1 / (sigma * sqrt (2 * PI)) /\
  (forall v, gaussian_density c sigma v <= gaussian_density c sigma c) /\
  (forall u v, Rabs (u - c) < Rabs (v - c) ->
               gaussian_density c sigma v < gaussian_density c sigma u).
Proof.
  intros Hs Hj.
  pose proof sqrt_2PI_pos as Hq.
  assert (Hden : 0 < / (sigma * sqrt (2 * PI)))
    by (apply Rinv_0_lt_compat; nra).
  split; [|split; [|split]].
  - eexists. split.
    + apply expand_gaussian_rows. intros ->. destruct j; discriminate.
    + unfold np.column. cbn [np.rows]. rewrite map_map. apply map_ext.
      intros v.
      rewrite (nth_map_in_range (fun c0 => stats.norm_pdf c0 sigma v) mus j c)
        by assumption.
      now apply norm_pdf_density.
  - unfold gaussian_density. now rewrite gaussian_bump_center.
  - intros v. unfold gaussian_density. rewrite gaussian_bump_center.
    pose proof (gaussian_bump_le_1 c sigma v Hs). unfold Rdiv. nra.
  - intros u v Huv. unfold gaussian_density.
    pose proof (gaussian_bump_decreasing c sigma u v Hs Huv).
    unfold Rdiv. nra.
Qed.

Lemma expand_gaussian_columns_witness :
  0 < 1 /\ nth_error [0; 1] 1 = Some 1 /\
  (exists Phi,
      expand_gaussian [0; 2] [0; 1] 1 = Ok Phi /\
      np.column nan Phi 1
      = map (fun v => finite (gaussian_bump 1 1 v / (1 * sqrt (2 * PI))))
            [0; 2]) /\
  gaussian_density 1 1 1 = 1 / (1 * sqrt (2 * PI)) /\
  (forall v, gaussian_density 1 1 v <= gaussian_density 1 1 1) /\
  (forall u v, Rabs (u - 1) < Rabs (v - 1) ->
               gaussian_density 1 1 v < gaussian_density 1 1 u).
Proof.
  split; [lra|]. split; [reflexivity|].
  apply (expand_gaussian_columns [0; 2] [0; 1] 1 1 1); [lra | reflexivity].
Defined.

(** C3, as stated, fails: with the single centre 0 and bandwidth 1 the
    entry at x = 0 is 1 / sqrt(2 pi), not the bump's value 1. *)
Lemma expand_gaussian_not_bump :
  exists Phi,
    expand_gaussian [0] [0] 1 = Ok Phi /\
    np.column nan Phi 0 = [finite (1 / sqrt (2 * PI))] /\
    np.column nan Phi 0 <> map (fun v => finite (gaussian_bump 0 1 v)) [0] /\
    np.column nan Phi 0 <> [finite 1].
Proof.
  pose proof sqrt_2PI_gt_1 as Hq.
  assert (Hlt : 1 / sqrt (2 * PI) < 1).
  { assert (H0 : 0 < / sqrt (2 * PI)) by (apply Rinv_0_lt_compat; lra).
    assert (H1 : sqrt (2 * PI) * / sqrt (2 * PI) = 1) by (apply Rinv_r; lra).
    unfold Rdiv. nra. }
  eexists. split; [apply expand_gaussian_rows; discriminate|].
  assert (Hcol : np.column nan
                   (np.mk_ndarray2 (length [0], length [0])
                      (map (fun v => map (fun c => stats.norm_pdf c 1 v) [0])
                           [0])) 0
                 = [finite (1 / sqrt (2 * PI))]).
  { cbn. rewrite norm_pdf_density by lra.
    unfold gaussian_density. rewrite gaussian_bump_center.
    do 2 f_equal. f_equal. ring. }
  rewrite Hcol. split; [reflexivity|]. split.
  - cbn [map]. rewrite gaussian_bump_center. intros H. inversion H. lra.
  - intros H. inversion H. lra.
Qed.

(** ** Expansion works row by row *)

Section RowLocal.

Context {A B : Type}.
Variable bf : np.ndarray1 -> B -> list A.
Variable f : B -> R -> A.
Hypothesis bf_elementwise : forall x' a, bf x' a = map (f a) x'.

Lemma _expand_row (x : np.ndarray1) (bf_args : list B) (i : nat) (xi : R)
    (Phi : np.ndarray2 A) :
  nth_error x i = Some xi ->
  _expand x bf bf_args = Ok Phi ->
  exists r,
    nth_error (np.rows Phi) i = Some r /\
    _expand [xi] bf bf_args = Ok (np.mk_ndarray2 (1%nat, snd (np.shape Phi)) [r]).
Proof.
  intros Hi HPhi.
  destruct bf_args as [|a0 args]; [discriminate|].
  rewrite (_expand_pointwise bf f) in HPhi by (auto; discriminate).
  injection HPhi as <-. cbn [np.rows np.shape snd].
  exists (map (fun a => f a xi) (a0 :: args)). split.
  - apply (map_nth_error (fun v => map (fun a => f a v) (a0 :: args))).
    exact Hi.
  - rewrite (_expand_pointwise bf f) by (auto; discriminate). reflexivity.
Qed.

Lemma _expand_app (xs ys : np.ndarray1) (bf_args : list B) :
  _expand (xs ++ ys) bf bf_args
  = (a <- _expand xs bf bf_args ;;
     b <- _expand ys bf bf_args ;;
     np.vstack a b).
Proof.
  destruct bf_args as [|a0 args]; [reflexivity|].
  rewrite !(_expand_pointwise bf f) by (auto; discriminate).
  cbn [bind]. unfold np.vstack. cbn [np.shape np.rows fst snd].
  rewrite Nat.eqb_refl, map_app, length_app. reflexivity.
Qed.

End RowLocal.

(** C10.  Basis expansion is row-local for both families: row i of the
    design matrix of xs is the single row of the design matrix of
    [xs[i]], and the expansion of a concatenation is the vertical stack of
    the two expansions (an expansion that raises makes both sides
    raise). *)
Theorem expand_row_local (xs ys : np.ndarray1) (degree : Z)
    (mus : np.ndarray1) (sigma : R) (i : nat) (xi : R) :
  nth_error xs i = Some xi ->
  (forall Phi, expand_polynomial xs degree = Ok Phi ->
     exists r, nth_error (np.rows Phi) i = Some r /\
               expand_polynomial [xi] degree
               = Ok (np.mk_ndarray2 (1%nat, snd (np.shape Phi)) [r])) /\
  (forall Phi, expand_gaussian xs mus sigma = Ok Phi ->
     exists r, nth_error (np.rows Phi) i = Some r /\
               expand_gaussian [xi] mus sigma
               = Ok (np.mk_ndarray2 (1%nat, snd (np.shape Phi)) [r])) /\
  expand_polynomial (xs ++ ys) degree
  = (a <- expand_polynomial xs degree ;;
     b <- expand_polynomial ys degree ;;
     np.vstack a b) /\
  expand_gaussian (xs ++ ys) mus sigma
  = (a <- expand_gaussian xs mus sigma ;;
     b <- expand_gaussian ys mus sigma ;;
     np.vstack a b).
Proof.
  intros Hi. repeat split.
  - intros Phi HPhi.
    apply (_expand_row polynomial_basis (fun p v => powerRZ v p)
             polynomial_basis_pointwise xs _ i xi Phi Hi HPhi).
  - intros Phi HPhi.
    apply (_expand_row (fun x' c => gaussian_basis x' c sigma)
             (fun c v => stats.norm_pdf c sigma v)
             (gaussian_basis_pointwise sigma) xs _ i xi Phi Hi HPhi).
  - apply (_expand_app polynomial_basis (fun p v => powerRZ v p)
             polynomial_basis_pointwise).
  - apply (_expand_app (fun x' c => gaussian_basis x' c sigma)
             (fun c v => stats.norm_pdf c sigma v)
             (gaussian_basis_pointwise sigma)).
Qed.

Lemma expand_row_local_witness :
  nth_error [1; 2] 1 = Some 2 /\
  (forall Phi, expand_polynomial [1; 2] 2 = Ok Phi ->
     exists r, nth_error (np.rows Phi) 1 = Some r /\
               expand_polynomial [2] 2
               = Ok (np.mk_ndarray2 (1%nat, snd (np.shape Phi)) [r])) /\
  (forall Phi, expand_gaussian [1; 2] [0] 1 = Ok Phi ->
     exists r, nth_error (np.rows Phi) 1 = Some r /\
               expand_gaussian [2] [0] 1
               = Ok (np.mk_ndarray2 (1%nat, snd (np.shape Phi)) [r])) /\
  expand_polynomial ([1; 2] ++ [3]) 2
  = (a <- expand_polynomial [1; 2] 2 ;;
     b <- expand_polynomial [3] 2 ;;
     np.vstack a b) /\
  expand_gaussian ([1; 2] ++ [3]) [0] 1
  = (a <- expand_gaussian [1; 2] [0] 1 ;;
     b <- expand_gaussian [3] [0] 1 ;;
     np.vstack a b).
Proof.
  split; [reflexivity|].
  apply (expand_row_local [1; 2] [3] 2 [0] 1 1 2). reflexivity.
Defined.

(** ** The model's mean: [w_r.dot(Phi_shared.T)] row by row *)

Lemma length_zip_cons {A : Type} (col : list A) (acc : list (list A)) :
  length (np.zip_cons col acc) = Nat.min (length col) (length acc).
Proof. unfold np.zip_cons. now rewrite length_map, length_combine. Qed.

Lemma length_rows_of_columns {A : Type} (n : nat) (cols : list (list A)) :
  Forall (fun c => length c = n) cols ->
  length (np.rows_of_columns n cols) = n.
Proof.
  unfold np.rows_of_columns.
  induction 1 as [|c cols Hc _ IH]; cbn [fold_right].
  - apply repeat_length.
  - rewrite length_zip_cons, IH, Hc. apply Nat.min_id.
Qed.

Lemma rows_of_columns_entries {A : Type} (n : nat) (cols : list (list A)) :
  Forall (fun r => length r = length cols) (np.rows_of_columns n cols).
Proof.
  unfold np.rows_of_columns.
  induction cols as [|c cols IH]; cbn [fold_right].
  - apply Forall_forall. intros r Hr. apply repeat_spec in Hr. now subst.
  - unfold np.zip_cons. apply Forall_forall. intros r Hr.
    apply in_map_iff in Hr. destruct Hr as [[a l] [<- Hin]].
    apply in_combine_r in Hin. rewrite Forall_forall in IH.
    cbn. f_equal. now apply IH.
Qed.

Lemma dot_product_cons (a b : R) (w r : list R) :
  dot_product (a :: w) (b :: r) = a * b + dot_product w r.
Proof. reflexivity. Qed.

(** Combining the columns with the weights: the head row comes out as
    its dot product, the other rows as before. *)
Lemma combine_columns_cons (n : nat) (w r : list R) (cols : list (list R)) :
  length r = length w ->
  length cols = length w ->
  fold_right theano.vadd (repeat 0 (S n))
    (map (fun p => theano.scale (fst p) (snd p))
         (combine w (np.zip_cons r cols)))
  = dot_product w r
    :: fold_right theano.vadd (repeat 0 n)
         (map (fun p => theano.scale (fst p) (snd p)) (combine w cols)).
Proof.
  revert r cols.
  induction w as [|a w IH]; intros [|b r] [|c cols] Hr Hc;
    try discriminate; cbn in Hr, Hc.
  - reflexivity.
  - change (np.zip_cons (b :: r) (c :: cols))
      with ((b :: c) :: np.zip_cons r cols).
    cbn [combine map fold_right fst snd].
    rewrite IH by lia.
    rewrite dot_product_cons. reflexivity.
Qed.

Lemma dot_T_rows (M : nat) (w : list R) (rws : list (list R)) :
  length w = M ->
  Forall (fun r => length r = M) rws ->
  fold_right theano.vadd (repeat 0 (length rws))
    (map (fun p => theano.scale (fst p) (snd p))
         (combine w (np.rows_of_columns M rws)))
  = map (dot_product w) rws.
Proof.
  intros Hw. induction 1 as [|r rws Hr Hall IH]; cbn [length map].
  - clear Hw. generalize (@np.rows_of_columns R M []). intros cols.
    revert cols. induction w as [|a w IHw]; intros [|c cols];
      try reflexivity.
    cbn [combine map fold_right fst snd]. rewrite IHw.
    destruct (theano.scale a c); reflexivity.
  - change (np.rows_of_columns M (r :: rws))
      with (np.zip_cons r (np.rows_of_columns M rws)).
    rewrite combine_columns_cons.
    + now rewrite IH.
    + congruence.
    + rewrite length_rows_of_columns by assumption. congruence.
Qed.

(** On a well-shaped design matrix the mean of observation i is
    [w_0 + w_r . Phi_i]. *)
Lemma mu_rows (Phi : np.ndarray2 R) (w0 : R) (w : list R) :
  np.well_shaped Phi ->
  length w = snd (np.shape Phi) ->
  mu (theano.mk_shared Phi) (pm.mk_point w0 w)
  = Ok (map (fun r => w0 + dot_product w r) (np.rows Phi)).
Proof.
  intros [Hrows Hall] Hw. unfold mu, theano.dot.
  cbn [pm.w_r pm.w_0 theano.get_value np.T np.shape np.rows fst snd].
  rewrite Hw, Nat.eqb_refl. cbn [bind]. f_equal.
  rewrite <- Hrows.
  rewrite (dot_T_rows (snd (np.shape Phi))) by assumption.
  now rewrite map_map.
Qed.

(** ** The log joint density *)

Lemma ln_sqrt_half (a : R) : 0 < a -> ln (sqrt a) = ln a / 2.
Proof.
  intros Ha. pose proof (sqrt_lt_R0 a Ha) as Hq.
  rewrite <- (sqrt_sqrt a) at 2 by lra.
  rewrite ln_mult by assumption. lra.
Qed.

(** PyMC3's log-density in the precision [tau] is the usual log-density
    of the normal distribution. *)
Lemma Normal_logp_pdf (m s v : R) :
  0 < s ->
  pm.Normal_logp (pm.mk_Normal m s) v = pm.LogP (normal_logpdf m s v).
Proof.
  intros Hs. unfold pm.Normal_logp. cbn [pm.Normal_sigma pm.Normal_mu].
  destruct (Rlt_dec 0 s) as [_|Hn]; [|contradiction].
  f_equal. unfold normal_logpdf.
  pose proof PI_RGT_0 as Hpi.
  assert (Hss : 0 < s * s) by nra.
  replace (/ (s * s) / PI / 2) with (/ ((s * s) * (2 * PI)))
    by (field; split; lra).
  rewrite ln_Rinv by nra.
  rewrite (ln_mult (s * s)) by lra.
  rewrite (ln_mult s s) by assumption.
  rewrite (ln_mult s) by (assumption || apply sqrt_2PI_pos).
  rewrite ln_sqrt_half by lra.
  field. lra.
Qed.

Lemma lp_sum_LogP {A : Type} (g : A -> R) (h : A -> pm.logprob) (l : list A) :
  (forall a, h a = pm.LogP (g a)) ->
  pm.lp_sum (map h l) = pm.LogP (Rsum (map g l)).
Proof.
  intros Hh. unfold pm.lp_sum, Rsum.
  induction l as [|a l IH]; cbn [map fold_right]; [reflexivity|].
  now rewrite IH, Hh.
Qed.

Lemma combine_map_l {A B C : Type} (h : A -> B) (l : list A) (l' : list C) :
  combine (map h l) l' = map (fun p => (h (fst p), snd p)) (combine l l').
Proof.
  revert l'. induction l as [|a l IH]; intros [|c l']; cbn; try reflexivity.
  now rewrite IH.
Qed.

(** C1.  The log joint density of the notebook's model, at the point
    (w0, w) and on the design matrix Phi the shared tensor holds, is the
    log-density of Normal(0, 10) at w0, plus that of Normal(0, 10) at each
    component of w, plus, over the observations i, that of
    Normal(w0 + w . Phi_i, noise) at t_i: for every w0, every w of length
    M, every N x M matrix Phi and every t of length N (the observation
    noise being positive). *)
Theorem log_joint_spec (noise0 : R) (Phi0 : np.ndarray2 R) (t0 : np.ndarray1)
    (w0 : R) (w : list R) :
  0 < noise0 ->
  np.well_shaped Phi0 ->
  length w = snd (np.shape Phi0) ->
  length t0 = fst (np.shape Phi0) ->
  pm.logp (build_model Phi0 noise0 t0) (theano.mk_shared Phi0)
          (pm.mk_point w0 w)
  = Ok (pm.LogP (spec_log_joint 10 noise0 (np.rows Phi0) t0 w0 w)).
Proof.
  intros Hn Hwf Hw Ht. unfold pm.logp, build_model.
  cbn [pm.mu pm.w_0_dist pm.w_r_dist pm.t_obs_sigma pm.observed
       pm.w_0 pm.w_r].
  rewrite (mu_rows Phi0 w0 w Hwf Hw). cbn [bind].
  destruct Hwf as [Hrows _].
  rewrite length_map, Hrows, Ht, Nat.eqb_refl.
  rewrite Normal_logp_pdf by lra.
  rewrite (lp_sum_LogP (normal_logpdf 0 10))
    by (intros; apply Normal_logp_pdf; lra).
  rewrite combine_map_l, map_map.
  rewrite (lp_sum_LogP
             (fun pt => normal_logpdf (w0 + dot_product w (fst pt)) noise0
                                      (snd pt)))
    by (intros; cbn [fst snd]; now apply Normal_logp_pdf).
  unfold spec_log_joint. cbn [pm.lp_add].
  do 2 f_equal. ring.
Qed.

Lemma log_joint_spec_witness :
  0 < 3 / 10 /\
  np.well_shaped (np.mk_ndarray2 (2%nat, 1%nat) [[0]; [1]]) /\
  length [2] = snd (np.shape (np.mk_ndarray2 (2%nat, 1%nat) [[0]; [1]])) /\
  length [1; 3] = fst (np.shape (np.mk_ndarray2 (2%nat, 1%nat) [[0]; [1]])) /\
  pm.logp (build_model (np.mk_ndarray2 (2%nat, 1%nat) [[0]; [1]]) (3 / 10)
                       [1; 3])
          (theano.mk_shared (np.mk_ndarray2 (2%nat, 1%nat) [[0]; [1]]))
          (pm.mk_point 1 [2])
  = Ok (pm.LogP (spec_log_joint 10 (3 / 10) [[0]; [1]] [1; 3] 1 [2])).
Proof.
  assert (Hn : 0 < 3 / 10) by lra.
  assert (Hwf : np.well_shaped (np.mk_ndarray2 (2%nat, 1%nat) [[0]; [1]])).
  { split; [reflexivity|]. repeat constructor. }
  repeat split; try assumption; try reflexivity.
  - apply Hwf.
  - apply (log_joint_spec (3 / 10) (np.mk_ndarray2 (2%nat, 1%nat) [[0]; [1]])
             [1; 3] 1 [2] Hn Hwf eq_refl eq_refl).
Defined.

(** ** Posterior predictive sampling *)

(** One predictive draw: at query row k the normal sampler with location
    [w_0 + w_r . phi_k] and scale [noise], on the k-th of the next
    variates. *)
Lemma draw_t_obs_rows (Phi0 Phi_q : np.ndarray2 R) (noise0 : R)
    (t0 : np.ndarray1) (p : pm.point) (rs : random.RandomState) :
  np.well_shaped Phi_q ->
  length (pm.w_r p) = snd (np.shape Phi_q) ->
  pm.draw_t_obs (build_model Phi0 noise0 t0) (theano.mk_shared Phi_q) p rs
  = Ok (map (fun rk =>
               pm.Normal_random
                 (pm.mk_Normal (pm.w_0 p + dot_product (pm.w_r p) (fst rk))
                               noise0)
                 (random.stream rs (random.pos rs + snd rk)))
            (combine (np.rows Phi_q) (seq 0 (fst (np.shape Phi_q)))),
        random.mk_RandomState (random.stream rs)
                              (random.pos rs + fst (np.shape Phi_q))).
Proof.
  intros Hwf Hw. unfold pm.draw_t_obs, build_model.
  cbn [pm.mu pm.t_obs_sigma].
  destruct p as [w0 w]. cbn [pm.w_0 pm.w_r] in *.
  rewrite (mu_rows Phi_q w0 w Hwf Hw). cbn [bind].
  destruct Hwf as [Hrows _].
  unfold random.standard_normal. cbn [fst snd].
  rewrite length_map, Hrows. f_equal. f_equal.
  rewrite combine_map_l.
  generalize (seq 0 (fst (np.shape Phi_q))). generalize (np.rows Phi_q).
  induction l as [|r l IH]; intros [|k ks]; cbn; try reflexivity.
  f_equal. apply IH.
Qed.

Section PredictiveLoop.

Variables (Phi0 Phi_q : np.ndarray2 R) (noise0 : R) (t0 : np.ndarray1).
Variable tr : list pm.point.
Hypothesis Phi_q_well_shaped : np.well_shaped Phi_q.
Hypothesis tr_nonempty : tr <> [].
Hypothesis tr_shape :
  forall p, In p tr -> length (pm.w_r p) = snd (np.shape Phi_q).

Let K : nat := fst (np.shape Phi_q).

(** The row of predictive values drawn at point [p] from position [o] of
    the stream. *)
Let row (st : nat -> R) (o : nat) (p : pm.point) : list R :=
  map (fun rk =>
         pm.Normal_random
           (pm.mk_Normal (pm.w_0 p + dot_product (pm.w_r p) (fst rk)) noise0)
           (st (o + snd rk)%nat))
      (combine (np.rows Phi_q) (seq 0 K)).

Lemma trace_lookup (idx : nat) :
  exists p, nth_error tr (idx mod length tr) = Some p /\ In p tr.
Proof.
  assert (Hlen : (length tr <> 0)%nat).
  { destruct tr; [contradiction | discriminate]. }
  destruct (nth_error tr (idx mod length tr)) as [p|] eqn:E.
  - exists p. split; [reflexivity|]. now apply nth_error_In in E.
  - apply nth_error_None in E.
    pose proof (Nat.mod_upper_bound idx (length tr) Hlen). lia.
Qed.

Lemma ppc_loop_rows (indices : list nat) (rs : random.RandomState) :
  exists out,
    pm.ppc_loop tr (build_model Phi0 noise0 t0) (theano.mk_shared Phi_q)
                indices rs
    = Ok (out, random.mk_RandomState (random.stream rs)
                 (random.pos rs + length indices * K)) /\
    length out = length indices /\
    forall j idx, nth_error indices j = Some idx ->
      exists p, nth_error tr (idx mod length tr) = Some p /\
                nth_error out j
                = Some (row (random.stream rs) (random.pos rs + j * K) p).
Proof.
  revert rs. induction indices as [|i indices IH]; intros rs.
  - exists []. cbn [pm.ppc_loop length]. repeat split.
    + destruct rs as [st o]. cbn. do 3 f_equal. lia.
    + intros [|j] idx H; discriminate.
  - destruct (trace_lookup i) as [p [Hp Hin]].
    cbn [pm.ppc_loop]. rewrite Hp.
    rewrite (draw_t_obs_rows Phi0 Phi_q noise0 t0 p rs Phi_q_well_shaped
               (tr_shape p Hin)).
    cbn [bind fst snd].
    destruct (IH (random.mk_RandomState (random.stream rs)
                    (random.pos rs + fst (np.shape Phi_q))))
      as [out [Hout [Hlen Hrows]]].
    rewrite Hout. cbn [bind fst snd random.stream random.pos].
    eexists. split; [|split].
    + do 3 f_equal. cbn [length]. fold K. lia.
    + cbn [length]. now rewrite Hlen.
    + intros [|j] idx Hj.
      * injection Hj as <-. exists p. split; [assumption|].
        cbn [nth_error]. unfold row. fold K.
        replace (random.pos rs + 0 * K)%nat with (random.pos rs) by lia.
        reflexivity.
      * cbn [nth_error] in Hj |- *.
        destruct (Hrows j idx Hj) as [q [Hq Hrow]].
        exists q. split; [assumption|].
        rewrite Hrow. cbn [random.stream random.pos]. fold K.
        replace (random.pos rs + K + j * K)%nat
          with (random.pos rs + S j * K)%nat by lia.
        reflexivity.
Qed.

Lemma ppc_loop_well_shaped (indices : list nat) (rs : random.RandomState) :
  exists out rs',
    pm.ppc_loop tr (build_model Phi0 noise0 t0) (theano.mk_shared Phi_q)
                indices rs
    = Ok (out, rs') /\
    length out = length indices /\
    Forall (fun r => length r = K) out.
Proof.
  destruct (ppc_loop_rows indices rs) as [out [Hout [Hlen Hrows]]].
  exists out. eexists. split; [exact Hout|]. split; [exact Hlen|].
  apply Forall_forall. intros r Hr.
  apply In_nth_error in Hr. destruct Hr as [j Hj].
  assert (Hjlt : (j < length indices)%nat).
  { rewrite <- Hlen. apply nth_error_Some. congruence. }
  destruct (nth_error indices j) as [idx|] eqn:E.
  - destruct (Hrows j idx E) as [p [_ Hrow]].
    rewrite Hrow in Hj. injection Hj as <-.
    unfold row. rewrite length_map, length_combine, length_seq.
    destruct Phi_q_well_shaped as [Hr _]. fold K in Hr. rewrite Hr.
    apply Nat.min_id.
  - apply nth_error_None in E. lia.
Qed.

End PredictiveLoop.

Lemma nth_error_combine_seq {A : Type} (l : list A) (k : nat) (a : A)
    (start : nat) :
  nth_error l k = Some a ->
  nth_error (combine l (seq start (length l))) k = Some (a, (start + k)%nat).
Proof.
  revert k start. induction l as [|b l IH]; intros [|k] start H;
    try discriminate; cbn in H |- *.
  - injection H as ->. now rewrite Nat.add_0_r.
  - rewrite (IH k (S start) H). do 2 f_equal. lia.
Qed.

(** The noiseless scenario, for any list of indices. *)
Lemma ppc_loop_noiseless (Phi0 : np.ndarray2 R) (t0 : np.ndarray1)
    (indices : list nat) (rs : random.RandomState) :
  exists rs',
    pm.ppc_loop [pm.mk_point 1 [2]] (build_model Phi0 0 t0)
                (theano.mk_shared (np.mk_ndarray2 (2%nat, 1%nat) [[0]; [1]]))
                indices rs
    = Ok (repeat [1; 3] (length indices), rs').
Proof.
  revert rs. induction indices as [|i indices IH]; intros rs.
  - exists rs. reflexivity.
  - cbn [pm.ppc_loop length]. rewrite Nat.mod_1_r. cbn [nth_error].
    rewrite draw_t_obs_rows;
      [| split; [reflexivity | repeat constructor] | reflexivity].
    cbn [bind fst snd].
    destruct (IH (random.mk_RandomState (random.stream rs)
                    (random.pos rs
                     + fst (np.shape (np.mk_ndarray2 (2%nat, 1%nat)
                                        [[0]; [1]])))))
      as [rs' Hrs'].
    rewrite Hrs'. cbn [bind fst snd]. exists rs'.
    do 2 f_equal. cbn [repeat]. f_equal.
    unfold pm.Normal_random, dot_product. cbn. f_equal; [ring|].
    f_equal. ring.
Qed.

(** C4.  Every posterior predictive draw is made by the normal sampler
    with location [w0 + w . phi_k] and scale [noise], on a variate of its
    own: draw s at query row k uses the point [trace[s % len(trace)]] and
    the variate at position [s * K + k] of the random stream.  In
    particular, for the one-point posterior (w0 = 1, w = [2]), the query
    matrix [[0], [1]] and noise 0, every draw is exactly [1, 3]. *)
Theorem predictive_draws (Phi0 Phi_q : np.ndarray2 R) (noise0 : R)
    (t0 : np.ndarray1) (tr : list pm.point) (n : nat)
    (rs : random.RandomState) :
  np.well_shaped Phi_q ->
  tr <> [] ->
  (forall p, In p tr -> length (pm.w_r p) = snd (np.shape Phi_q)) ->
  (exists out rs',
      pm.sample_posterior_predictive tr (build_model Phi0 noise0 t0)
                                     (theano.mk_shared Phi_q) n rs
      = Ok (out, rs') /\
      length out = n /\
      forall s k phi_k,
        (s < n)%nat ->
        nth_error (np.rows Phi_q) k = Some phi_k ->
        exists p,
          nth_error tr (s mod length tr) = Some p /\
          nth_error (nth s out []) k
          = Some (pm.Normal_random
                    (pm.mk_Normal (pm.w_0 p + dot_product (pm.w_r p) phi_k)
                                  noise0)
                    (random.stream rs
                       (random.pos rs + s * fst (np.shape Phi_q) + k)))) /\
  (forall n1 rs1,
      exists rs',
        pm.sample_posterior_predictive
          [pm.mk_point 1 [2]] (build_model Phi0 0 t0)
          (theano.mk_shared (np.mk_ndarray2 (2%nat, 1%nat) [[0]; [1]]))
          n1 rs1
        = Ok (repeat [1; 3] n1, rs')).
Proof.
  intros Hwf Hne Hshape. split.
  - unfold pm.sample_posterior_predictive.
    destruct (ppc_loop_rows Phi0 Phi_q noise0 t0 tr Hwf Hne Hshape
                (seq 0 n) rs) as [out [Hout [Hlen Hrows]]].
    rewrite length_seq in Hlen.
    exists out. eexists. split; [exact Hout|]. split; [exact Hlen|].
    intros s k phi_k Hs Hk.
    assert (Hidx : nth_error (seq 0 n) s = Some s).
    { rewrite nth_error_seq.
      destruct (Nat.ltb_spec s n); [reflexivity | lia]. }
    destruct (Hrows s s Hidx) as [p [Hp Hrow]].
    exists p. split; [exact Hp|].
    rewrite (nth_error_nth _ _ _ Hrow).
    destruct Hwf as [Hr _]. rewrite <- Hr.
    apply (nth_error_combine_seq _ _ _ 0%nat) in Hk.
    rewrite (map_nth_error _ _ _ Hk). cbn [fst snd]. reflexivity.
  - intros n1 rs1. unfold pm.sample_posterior_predictive.
    destruct (ppc_loop_noiseless Phi0 t0 (seq 0 n1) rs1) as [rs' H].
    exists rs'. now rewrite length_seq in H.
Qed.

Lemma predictive_draws_witness :
  np.well_shaped (np.mk_ndarray2 (2%nat, 1%nat) [[0]; [1]]) /\
  [pm.mk_point 1 [2]] <> [] /\
  (forall p, In p [pm.mk_point 1 [2]] ->
             length (pm.w_r p)
             = snd (np.shape (np.mk_ndarray2 (2%nat, 1%nat) [[0]; [1]]))) /\
  (exists out rs',
      pm.sample_posterior_predictive
        [pm.mk_point 1 [2]]
        (build_model (np.mk_ndarray2 (1%nat, 1%nat) [[0]]) (3 / 10) [1])
        (theano.mk_shared (np.mk_ndarray2 (2%nat, 1%nat) [[0]; [1]]))
        3 zero_state
      = Ok (out, rs') /\
      length out = 3%nat).
Proof.
  assert (Hwf : np.well_shaped (np.mk_ndarray2 (2%nat, 1%nat) [[0]; [1]])).
  { split; [reflexivity | repeat constructor]. }
  assert (Hne : [pm.mk_point 1 [2]] <> []) by discriminate.
  assert (Hsh : forall p, In p [pm.mk_point 1 [2]] ->
             length (pm.w_r p)
             = snd (np.shape (np.mk_ndarray2 (2%nat, 1%nat) [[0]; [1]]))).
  { intros p [<-|[]]. reflexivity. }
  split; [exact Hwf|]. split; [exact Hne|]. split; [exact Hsh|].
  destruct (predictive_draws (np.mk_ndarray2 (1%nat, 1%nat) [[0]])
              (np.mk_ndarray2 (2%nat, 1%nat) [[0]; [1]]) (3 / 10) [1]
              [pm.mk_point 1 [2]] 3 zero_state Hwf Hne Hsh)
    as [[out [rs' [H1 [H2 _]]]] _].
  exists out, rs'. split; assumption.
Defined.

(** ** Running the notebook *)

(** Reduces the accessors of the notebook, and nothing of the sampling. *)
Ltac nb_simpl :=
  cbn [run bind fst snd
       expand noise x t x_test random_state Phi Phi_shared model trace
       predictive_samples m
       set_random_state set_Phi set_Phi_shared set_model set_trace
       set_predictive_samples set_m theano.set_value].

Lemma run_app (a b : list (notebook -> result notebook)) (nb : notebook) :
  run (a ++ b) nb
  = match run a nb with
    | (nb', None) => run b nb'
    | (nb', Some e) => (nb', Some e)
    end.
Proof.
  revert nb. induction a as [|s a IH]; intros nb; cbn [app run].
  - reflexivity.
  - destruct (s nb) as [nb'|e]; [apply IH | reflexivity].
Qed.

(** An expansion that raises stops the run at the first statement of the
    model cell: nothing is bound, the sampler is never reached. *)
Lemma run_all_expand_raises (pm_sample : sampler) (nb : notebook) (e : exn) :
  expand nb (x nb) = Raise e ->
  run_all pm_sample nb = (nb, Some e).
Proof.
  intros H. unfold run_all, model_cell. cbn [app run].
  unfold stmt_Phi. rewrite H. reflexivity.
Qed.

(** The model cell and the inference cell, when the expansion succeeds. *)
Lemma run_model_inference (pm_sample : sampler) (nb : notebook)
    (Phi_v : np.ndarray2 R) :
  expand nb (x nb) = Ok Phi_v ->
  run (model_cell ++ inference_cell pm_sample) nb
  = (mk_notebook (expand nb) (noise nb) (x nb) (t nb) (x_test nb)
       (snd (pm_sample (build_model Phi_v (noise nb) (t nb))
                       (theano.mk_shared Phi_v) (random_state nb)))
       (Some Phi_v)
       (Some (theano.mk_shared Phi_v))
       (Some (build_model Phi_v (noise nb) (t nb)))
       (Some (fst (pm_sample (build_model Phi_v (noise nb) (t nb))
                             (theano.mk_shared Phi_v) (random_state nb))))
       (predictive_samples nb) (m nb),
     None).
Proof.
  intros H. unfold model_cell, inference_cell. cbn [app run].
  unfold stmt_Phi. rewrite H. cbn. reflexivity.
Qed.

(** The prediction cell, on a notebook whose model and trace are bound. *)
Lemma run_prediction (nb : notebook) (ps : theano.shared)
    (tr : list pm.point) (Phi0 Phi_q : np.ndarray2 R) (noise0 : R)
    (t0 : np.ndarray1) :
  Phi_shared nb = Some ps ->
  trace nb = Some tr ->
  model nb = Some (build_model Phi0 noise0 t0) ->
  expand nb (x_test nb) = Ok Phi_q ->
  np.well_shaped Phi_q ->
  tr <> [] ->
  (forall p, In p tr -> length (pm.w_r p) = snd (np.shape Phi_q)) ->
  exists out rs',
    length out = samples /\
    Forall (fun r => length r = fst (np.shape Phi_q)) out /\
    run prediction_cell nb
    = (mk_notebook (expand nb) (noise nb) (x nb) (t nb) (x_test nb) rs'
         (Phi nb) (Some (theano.mk_shared Phi_q)) (model nb) (trace nb)
         (Some (np_asarray out)) (m nb),
       None).
Proof.
  intros Hps Htr Hmo Hex Hwf Hne Hsh.
  destruct (ppc_loop_well_shaped Phi0 Phi_q noise0 t0 tr Hwf Hne Hsh
              (seq 0 samples) (random_state nb))
    as [out [rs' [Hout [Hlen Hall]]]].
  rewrite length_seq in Hlen.
  exists out, rs'. split; [exact Hlen|]. split; [exact Hall|].
  unfold prediction_cell. cbn [run].
  unfold stmt_set_value. rewrite Hps, Hex. cbn [bind].
  unfold stmt_predict, set_Phi_shared, theano.set_value.
  cbn [trace model Phi_shared random_state].
  rewrite Htr, Hmo. unfold pm.sample_posterior_predictive.
  rewrite Hout. cbn [bind fst snd].
  unfold set_predictive_samples, set_random_state. cbn.
  reflexivity.
Qed.

Lemma init_sampler_contract : sampler_contract init_sampler.
Proof.
  intros mo ps rs. cbn. split; [discriminate|].
  intros p [<-|[]]. cbn. apply repeat_length.
Qed.

Lemma expand_polynomial_shape (x0 : np.ndarray1) (degree : Z) :
  (1 <= degree)%Z ->
  exists Phi_v,
    expand_polynomial x0 degree = Ok Phi_v /\
    np.shape Phi_v = (length x0, Z.to_nat degree) /\
    np.well_shaped Phi_v.
Proof.
  intros Hd. eexists. split; [now apply expand_polynomial_rows|].
  split; [reflexivity|].
  rewrite <- (length_range_from_1 degree).
  apply (pointwise_well_shaped (fun v p => powerRZ v p)).
Qed.

Lemma np_asarray_shape (out : list (list R)) (n K : nat) :
  length out = S n ->
  Forall (fun r => length r = K) out ->
  np.shape (np_asarray out) = (S n, K) /\ np.well_shaped (np_asarray out).
Proof.
  intros Hlen Hall. destruct out as [|r out]; [discriminate|].
  assert (Hr : length r = K) by now inversion Hall.
  unfold np_asarray, np.well_shaped. cbn [hd np.shape np.rows fst snd].
  rewrite Hlen, Hr. repeat split. exact Hall.
Qed.

Lemma length_np_mean_axis0 (a : np.ndarray2 R) :
  length (np_mean_axis0 a) = snd (np.shape a).
Proof. unfold np_mean_axis0. now rewrite length_map, length_seq. Qed.

(** The whole notebook, from a fresh kernel, with the polynomial
    expansion of a degree of at least 1. *)
Lemma run_all_completes (pm_sample : sampler) (degree : Z) (noise0 : R)
    (x0 t0 xt : np.ndarray1) (rs : random.RandomState) :
  (1 <= degree)%Z ->
  sampler_contract pm_sample ->
  exists Phi_v Phi_q out rs',
    expand_polynomial x0 degree = Ok Phi_v /\
    np.shape Phi_v = (length x0, Z.to_nat degree) /\
    np.well_shaped Phi_v /\
    expand_polynomial xt degree = Ok Phi_q /\
    np.shape Phi_q = (length xt, Z.to_nat degree) /\
    length out = samples /\
    Forall (fun r => length r = length xt) out /\
    run_all pm_sample (fresh degree noise0 x0 t0 xt rs)
    = (mk_notebook (fun x' => expand_polynomial x' degree) noise0 x0 t0 xt rs'
         (Some Phi_v)
         (Some (theano.mk_shared Phi_q))
         (Some (build_model Phi_v noise0 t0))
         (Some (fst (pm_sample (build_model Phi_v noise0 t0)
                               (theano.mk_shared Phi_v) rs)))
         (Some (np_asarray out))
         (Some (np_mean_axis0 (np_asarray out))),
       None).
Proof.
  intros Hd Hc.
  destruct (expand_polynomial_shape x0 degree Hd) as [Phi_v [HPhi [Hsv Hwv]]].
  destruct (expand_polynomial_shape xt degree Hd) as [Phi_q [HPhq [Hsq Hwq]]].
  destruct (Hc (build_model Phi_v noise0 t0) (theano.mk_shared Phi_v) rs)
    as [Hne Hsh].
  pose proof (run_model_inference pm_sample (fresh degree noise0 x0 t0 xt rs)
                Phi_v HPhi) as H1.
  cbn [fresh expand noise x t x_test random_state predictive_samples m] in H1.
  match type of H1 with _ = (?nb, None) => set (nb1 := nb) in * end.
  destruct (run_prediction nb1 (theano.mk_shared Phi_v)
              (fst (pm_sample (build_model Phi_v noise0 t0)
                              (theano.mk_shared Phi_v) rs))
              Phi_v Phi_q noise0 t0 eq_refl eq_refl eq_refl HPhq Hwq Hne)
    as [out [rs' [Hlen [Hall H2]]]].
  { intros p Hp. rewrite (Hsh p Hp). cbn [build_model pm.w_r_shape].
    rewrite Hsv, Hsq. reflexivity. }
  rewrite Hsq in Hall. cbn [fst] in Hall.
  exists Phi_v, Phi_q, out, rs'.
  repeat (split; [assumption|]).
  unfold run_all. rewrite app_assoc, run_app, H1, run_app, H2.
  reflexivity.
Qed.

(** ** Shapes *)

(** C5, as the code has it.  The design matrix of either expansion has
    one row per input and one column per basis function; every point of
    the trace has a [w_r] as long as the design matrix it was sampled on
    is wide; the predictive sample set has one row per draw (5000) and one
    column per query input, so that its mean over axis 0 has one entry per
    query input. *)
Theorem shape_invariants (pm_sample : sampler) (degree : Z) (noise0 : R)
    (x0 t0 xt : np.ndarray1) (rs : random.RandomState) :
  (1 <= degree)%Z ->
  sampler_contract pm_sample ->
  (forall mus sigma Phi_g,
      expand_gaussian x0 mus sigma = Ok Phi_g ->
      np.shape Phi_g = (length x0, length mus) /\ np.well_shaped Phi_g) /\
  exists nb' Phi_v tr ps mv,
    run_all pm_sample (fresh degree noise0 x0 t0 xt rs) = (nb', None) /\
    Phi nb' = Some Phi_v /\
    np.shape Phi_v = (length x0, Z.to_nat degree) /\
    np.well_shaped Phi_v /\
    trace nb' = Some tr /\
    (forall p, In p tr -> length (pm.w_r p) = snd (np.shape Phi_v)) /\
    predictive_samples nb' = Some ps /\
    np.shape ps = (samples, length xt) /\
    np.well_shaped ps /\
    m nb' = Some mv /\
    length mv = length xt.
Proof.
  intros Hd Hc. split.
  - intros mus sigma Phi_g H.
    destruct mus as [|c mus]; [discriminate|].
    rewrite expand_gaussian_rows in H by discriminate.
    injection H as <-. split; [reflexivity|].
    apply (pointwise_well_shaped (fun v c0 => stats.norm_pdf c0 sigma v)
             x0 (c :: mus)).
  - destruct (run_all_completes pm_sample degree noise0 x0 t0 xt rs Hd Hc)
      as [Phi_v [Phi_q [out [rs' [HPhi [Hsv [Hwv [_ [_ [Hlen [Hall Hrun]]]]]]]]]]].
    destruct (np_asarray_shape out 4999 (length xt) Hlen Hall) as [Hso Hwo].
    eexists. exists Phi_v. eexists. exists (np_asarray out).
    exists (np_mean_axis0 (np_asarray out)).
    split; [exact Hrun|].
    cbn [Phi trace predictive_samples m].
    split; [reflexivity|]. split; [exact Hsv|]. split; [exact Hwv|].
    split; [reflexivity|]. split.
    + intros p Hp.
      destruct (Hc (build_model Phi_v noise0 t0) (theano.mk_shared Phi_v) rs)
        as [_ Hsh].
      apply (Hsh p Hp).
    + split; [reflexivity|]. split; [exact Hso|]. split; [exact Hwo|].
      split; [reflexivity|].
      rewrite length_np_mean_axis0, Hso. reflexivity.
Qed.

Lemma shape_invariants_witness :
  (1 <= 1)%Z /\ sampler_contract init_sampler /\
  exists nb' ps,
    run_all init_sampler (fresh 1 (3 / 10) [0] [1] [0; 1] zero_state)
    = (nb', None) /\
    predictive_samples nb' = Some ps /\
    np.shape ps = (samples, 2%nat).
Proof.
  split; [lia|]. split; [exact init_sampler_contract|].
  destruct (shape_invariants init_sampler 1 (3 / 10) [0] [1] [0; 1] zero_state
              ltac:(lia) init_sampler_contract)
    as [_ [nb' [Phi_v [tr [ps [mv [H1 [_ [_ [_ [_ [_ [H2 [H3 _]]]]]]]]]]]]]].
  exists nb', ps. repeat split; assumption.
Defined.

(** C5, as stated, fails: with two query inputs the predictive sample set
    has 5000 rows, one per draw. *)
Lemma predictive_rows_are_draws :
  exists nb' ps,
    run_all init_sampler (fresh 1 (3 / 10) [0] [1] [0; 1] zero_state)
    = (nb', None) /\
    predictive_samples nb' = Some ps /\
    fst (np.shape ps) = 5000%nat /\
    fst (np.shape ps) <> length [0; 1].
Proof.
  destruct (run_all_completes init_sampler 1 (3 / 10) [0] [1] [0; 1]
              zero_state ltac:(lia) init_sampler_contract)
    as [Phi_v [Phi_q [out [rs' [_ [_ [_ [_ [_ [Hlen [Hall Hrun]]]]]]]]]]].
  destruct (np_asarray_shape out 4999 (length [0; 1]) Hlen Hall) as [Hso _].
  eexists. exists (np_asarray out). split; [exact Hrun|].
  split; [reflexivity|]. rewrite Hso. cbn [fst length]. split; [reflexivity|].
  discriminate.
Qed.

(** ** Invalid basis parameters *)

Lemma expand_polynomial_raises (x0 : np.ndarray1) (degree : Z) :
  (degree < 1)%Z -> expand_polynomial x0 degree = Raise ValueError.
Proof.
  intros H. unfold expand_polynomial. now rewrite range_empty.
Qed.

Lemma run_all_empty_basis (pm_sample : sampler) (degree : Z) (noise0 : R)
    (x0 t0 xt : np.ndarray1) (rs : random.RandomState) :
  (degree < 1)%Z ->
  run_all pm_sample (fresh degree noise0 x0 t0 xt rs)
  = (fresh degree noise0 x0 t0 xt rs, Some ValueError).
Proof.
  intros H. apply run_all_expand_raises. cbn.
  now apply expand_polynomial_raises.
Qed.

(** C7, as the code has it.  A degree below 1 and an empty list of
    centres make the expansion raise [ValueError] (from [np.stack]); in
    the notebook this stops the run in the model cell, before anything is
    sampled.  A bandwidth that is not positive is not rejected: the
    expansion returns a matrix of [nan].  With a degree of at least 1, or
    with at least one centre, the expansion does not raise. *)
Theorem expand_validation (x0 : np.ndarray1) (degree : Z)
    (mus : np.ndarray1) (sigma : R) (pm_sample : sampler) (noise0 : R)
    (t0 xt : np.ndarray1) (rs : random.RandomState) :
  ((degree < 1)%Z ->
   expand_polynomial x0 degree = Raise ValueError /\
   run_all pm_sample (fresh degree noise0 x0 t0 xt rs)
   = (fresh degree noise0 x0 t0 xt rs, Some ValueError) /\
   trace (fst (run_all pm_sample (fresh degree noise0 x0 t0 xt rs))) = None) /\
  expand_gaussian x0 [] sigma = Raise ValueError /\
  ((1 <= degree)%Z -> exists Phi_v, expand_polynomial x0 degree = Ok Phi_v) /\
  (mus <> [] -> exists Phi_g, expand_gaussian x0 mus sigma = Ok Phi_g) /\
  (mus <> [] -> sigma <= 0 ->
   expand_gaussian x0 mus sigma
   = Ok (np.mk_ndarray2 (length x0, length mus)
           (map (fun _ => map (fun _ => nan) mus) x0))).
Proof.
  repeat split.
  - now apply expand_polynomial_raises.
  - now apply run_all_empty_basis.
  - now rewrite run_all_empty_basis.
  - intros Hd. destruct (expand_polynomial_shape x0 degree Hd) as [P [H _]].
    now exists P.
  - intros Hne. eexists. now apply expand_gaussian_rows.
  - intros Hne Hs. rewrite expand_gaussian_rows by assumption.
    do 2 f_equal. apply map_ext. intros v. apply map_ext. intros c.
    now apply norm_pdf_bad_scale.
Qed.

Lemma expand_validation_witness :
  expand_polynomial [0; 1] 0 = Raise ValueError /\
  (exists Phi_v, expand_polynomial [0; 1] 1 = Ok Phi_v) /\
  expand_gaussian [0; 1] [0] (-1)
  = Ok (np.mk_ndarray2 (2%nat, 1%nat) [[nan]; [nan]]).
Proof.
  pose proof (expand_validation [0; 1] 0 [0] (-1) init_sampler (3 / 10)
                [0; 1] [0] zero_state) as [H0 _].
  pose proof (expand_validation [0; 1] 1 [0] (-1) init_sampler (3 / 10)
                [0; 1] [0] zero_state) as [_ [_ [H1 [_ H2]]]].
  split; [apply H0; lia|]. split; [apply H1; lia|].
  apply H2; [discriminate | lra].
Defined.

(** C7, as stated, fails: a bandwidth of 0 does not make the expansion
    raise. *)
Lemma expand_gaussian_zero_bandwidth :
  0 <= 0 /\
  expand_gaussian [0] [0] 0 = Ok (np.mk_ndarray2 (1%nat, 1%nat) [[nan]]).
Proof.
  split; [lra|]. rewrite expand_gaussian_rows by discriminate.
  cbn. now rewrite norm_pdf_bad_scale by lra.
Qed.

(** ** No basis function *)

Lemma zero_columns_well_shaped (N : nat) :
  np.well_shaped (np.mk_ndarray2 (N, 0%nat) (repeat (@nil R) N)).
Proof.
  split; cbn.
  - apply repeat_length.
  - apply Forall_forall. intros r Hr. apply repeat_spec in Hr. now subst.
Qed.

Lemma mu_zero_columns (N : nat) (w0 : R) :
  mu (theano.mk_shared (np.mk_ndarray2 (N, 0%nat) (repeat [] N)))
     (pm.mk_point w0 [])
  = Ok (repeat w0 N).
Proof.
  rewrite mu_rows by (apply zero_columns_well_shaped || reflexivity).
  cbn [np.rows]. rewrite map_repeat. do 2 f_equal.
  unfold dot_product. cbn. apply Rplus_0_r.
Qed.

Lemma combine_repeat_map {A B C : Type} (a : A) (f : A * B -> C) (l : list B) :
  map f (combine (repeat a (length l)) l) = map (fun b => f (a, b)) l.
Proof. induction l as [|b l IH]; cbn; [reflexivity | now rewrite IH]. Qed.

(** C8, as the code has it.  With an empty basis set (a degree below 1,
    or no centre) the expansion raises [ValueError]: the run stops in the
    model cell, no design matrix of zero columns is produced, the model
    is not built and nothing is sampled.  Handed such a matrix directly,
    with the empty [w_r], the model has the mean [w_0] at every
    observation, and its log joint density is the prior term of [w_0] plus
    the terms of Normal(w_0, noise) at the targets: a model of [w_0]
    alone. *)
Theorem empty_basis (pm_sample : sampler) (degree : Z) (sigma noise0 : R)
    (x0 t0 xt : np.ndarray1) (rs : random.RandomState) (w0 : R) :
  ((degree < 1)%Z ->
   run_all pm_sample (fresh degree noise0 x0 t0 xt rs)
   = (fresh degree noise0 x0 t0 xt rs, Some ValueError) /\
   model (fst (run_all pm_sample (fresh degree noise0 x0 t0 xt rs))) = None /\
   trace (fst (run_all pm_sample (fresh degree noise0 x0 t0 xt rs))) = None) /\
  expand_gaussian x0 [] sigma = Raise ValueError /\
  mu (theano.mk_shared
        (np.mk_ndarray2 (length t0, 0%nat) (repeat [] (length t0))))
     (pm.mk_point w0 [])
  = Ok (repeat w0 (length t0)) /\
  (0 < noise0 ->
   pm.logp (build_model
              (np.mk_ndarray2 (length t0, 0%nat) (repeat [] (length t0)))
              noise0 t0)
           (theano.mk_shared
              (np.mk_ndarray2 (length t0, 0%nat) (repeat [] (length t0))))
           (pm.mk_point w0 [])
   = Ok (pm.LogP (normal_logpdf 0 10 w0
                  + Rsum (map (normal_logpdf w0 noise0) t0)))).
Proof.
  split; [|split; [|split]].
  - intros Hd. rewrite run_all_empty_basis by assumption.
    repeat split.
  - reflexivity.
  - apply mu_zero_columns.
  - intros Hn. unfold pm.logp, build_model.
    cbn [pm.mu pm.w_0_dist pm.w_r_dist pm.t_obs_sigma pm.observed
         pm.w_0 pm.w_r].
    rewrite mu_zero_columns. cbn [bind].
    rewrite repeat_length, Nat.eqb_refl.
    rewrite Normal_logp_pdf by lra.
    rewrite (combine_repeat_map w0
               (fun mt => pm.Normal_logp (pm.mk_Normal (fst mt) noise0)
                                         (snd mt))).
    change (map (pm.Normal_logp (pm.mk_Normal 0 10)) []) with (@nil pm.logprob).
    rewrite (lp_sum_LogP (normal_logpdf w0 noise0))
      by (intros; cbn [fst snd]; now apply Normal_logp_pdf).
    cbn [pm.lp_sum fold_right pm.lp_add]. do 2 f_equal. ring.
Qed.

Lemma empty_basis_witness :
  run_all init_sampler (fresh 0 (3 / 10) [0; 1] [1; 2] [0] zero_state)
  = (fresh 0 (3 / 10) [0; 1] [1; 2] [0] zero_state, Some ValueError) /\
  pm.logp (build_model (np.mk_ndarray2 (2%nat, 0%nat) [[]; []]) (3 / 10)
                       [1; 2])
          (theano.mk_shared (np.mk_ndarray2 (2%nat, 0%nat) [[]; []]))
          (pm.mk_point 1 [])
  = Ok (pm.LogP (normal_logpdf 0 10 1
                 + Rsum (map (normal_logpdf 1 (3 / 10)) [1; 2]))).
Proof.
  pose proof (empty_basis init_sampler 0 1 (3 / 10) [0; 1] [1; 2] [0]
                zero_state 1) as [H0 [_ [_ H1]]].
  split; [apply H0; lia | apply H1; lra].
Defined.

(** C8, as stated, fails: with the empty basis set (degree 0) the run
    stops with [ValueError] in the model cell; no model is built and the
    sampler does not run. *)
Lemma empty_basis_stops_the_run :
  run_all init_sampler (fresh 0 (3 / 10) [0; 1] [1; 2] [0] zero_state)
  = (fresh 0 (3 / 10) [0; 1] [1; 2] [0] zero_state, Some ValueError) /\
  model (fst (run_all init_sampler
                (fresh 0 (3 / 10) [0; 1] [1; 2] [0] zero_state))) = None /\
  trace (fst (run_all init_sampler
                (fresh 0 (3 / 10) [0; 1] [1; 2] [0] zero_state))) = None.
Proof.
  rewrite run_all_empty_basis by lia. repeat split.
Qed.

(** ** The shared tensor *)

(** C9, as the code has it.  Sampling leaves the value of [Phi_shared],
    the array [Phi], the targets, the noise and the model as they are.
    The prediction cell leaves [Phi], the targets, the noise, the model
    and the trace as they are, and replaces the value of [Phi_shared],
    the design matrix the model reads, by the expansion of the query
    inputs; [sample_posterior_predictive] itself does not touch it. *)
Theorem shared_tensor_frame (pm_sample : sampler) (nb : notebook) :
  (Phi_shared (fst (run (inference_cell pm_sample) nb)) = Phi_shared nb /\
   Phi (fst (run (inference_cell pm_sample) nb)) = Phi nb /\
   t (fst (run (inference_cell pm_sample) nb)) = t nb /\
   noise (fst (run (inference_cell pm_sample) nb)) = noise nb /\
   model (fst (run (inference_cell pm_sample) nb)) = model nb) /\
  (Phi (fst (run prediction_cell nb)) = Phi nb /\
   t (fst (run prediction_cell nb)) = t nb /\
   noise (fst (run prediction_cell nb)) = noise nb /\
   model (fst (run prediction_cell nb)) = model nb /\
   trace (fst (run prediction_cell nb)) = trace nb) /\
  (forall ps v,
      Phi_shared nb = Some ps ->
      expand nb (x_test nb) = Ok v ->
      Phi_shared (fst (run prediction_cell nb)) = Some (theano.mk_shared v)) /\
  Phi_shared (fst (run [stmt_predict] nb)) = Phi_shared nb.
Proof.
  split; [|split; [|split]].
  - unfold inference_cell, stmt_sample. cbn [run].
    destruct (model nb) eqn:Em, (Phi_shared nb) eqn:Ep; nb_simpl;
      rewrite ?Em, ?Ep; repeat split.
  - unfold prediction_cell, stmt_set_value. cbn [run].
    destruct (Phi_shared nb) as [ps|] eqn:Ep; [|nb_simpl; repeat split].
    destruct (expand nb (x_test nb)) as [v|e]; [|nb_simpl; repeat split].
    cbn [bind]. unfold stmt_predict. nb_simpl.
    destruct (trace nb) eqn:Et, (model nb) eqn:Em;
      try destruct (pm.sample_posterior_predictive _ _ _ _ _);
      nb_simpl; rewrite ?Et, ?Em; repeat split.
  - intros ps v Hps Hv.
    unfold prediction_cell, stmt_set_value. cbn [run].
    rewrite Hps, Hv. cbn [bind]. unfold stmt_predict. nb_simpl.
    destruct (trace nb), (model nb);
      try destruct (pm.sample_posterior_predictive _ _ _ _ _);
      reflexivity.
  - unfold stmt_predict. cbn [run].
    destruct (trace nb), (model nb), (Phi_shared nb) eqn:Ep;
      try destruct (pm.sample_posterior_predictive _ _ _ _ _);
      nb_simpl; now rewrite ?Ep.
Qed.

(** C9, as stated, fails: after the prediction cell the design matrix
    the model reads is the expansion of the query inputs, not the one the
    trace was sampled on. *)
Lemma shared_tensor_is_replaced :
  exists nb1 nb2 sampled_on,
    run (model_cell ++ inference_cell init_sampler)
        (fresh 1 (3 / 10) [0] [1] [1; 2] zero_state) = (nb1, None) /\
    run prediction_cell nb1 = (nb2, None) /\
    Phi_shared nb1 = Some (theano.mk_shared sampled_on) /\
    Phi nb2 = Some sampled_on /\
    t nb2 = [1] /\
    Phi_shared nb2 <> Some (theano.mk_shared sampled_on).
Proof.
  destruct (expand_polynomial_shape [0] 1 ltac:(lia)) as [Phi_v [Hv [Hsv Hwv]]].
  destruct (expand_polynomial_shape [1; 2] 1 ltac:(lia))
    as [Phi_q [Hq [Hsq Hwq]]].
  pose proof (run_model_inference init_sampler
                (fresh 1 (3 / 10) [0] [1] [1; 2] zero_state) Phi_v Hv) as H1.
  cbn [fresh expand noise x t x_test random_state predictive_samples m] in H1.
  match type of H1 with _ = (?nb, None) => set (nb1 := nb) in * end.
  destruct (run_prediction nb1 (theano.mk_shared Phi_v)
              [pm.mk_point 0 (repeat 0 (snd (np.shape Phi_v)))]
              Phi_v Phi_q (3 / 10) [1] eq_refl eq_refl eq_refl Hq Hwq)
    as [out [rs' [_ [_ H2]]]].
  { discriminate. }
  { intros p [<-|[]]. cbn [pm.w_r]. rewrite repeat_length, Hsv, Hsq.
    reflexivity. }
  exists nb1. eexists. exists Phi_v.
  split; [exact H1|]. split; [exact H2|].
  cbn [Phi_shared Phi t]. repeat split.
  intros Heq. injection Heq as Heq. rewrite Heq in Hsq. rewrite Hsv in Hsq.
  discriminate.
Qed.

Lemma shared_tensor_frame_witness :
  Phi_shared
    (fst (run prediction_cell
            (set_Phi_shared (fresh 1 (3 / 10) [0] [1] [1; 2] zero_state)
               (theano.mk_shared (np.mk_ndarray2 (1%nat, 1%nat) [[0]])))))
  = Some (theano.mk_shared
            (np.mk_ndarray2 (2%nat, 1%nat) [[powerRZ 1 1]; [powerRZ 2 1]])).
Proof.
  pose proof (shared_tensor_frame init_sampler
                (set_Phi_shared (fresh 1 (3 / 10) [0] [1] [1; 2] zero_state)
                   (theano.mk_shared (np.mk_ndarray2 (1%nat, 1%nat) [[0]]))))
    as [_ [_ [H _]]].
  apply (H (theano.mk_shared (np.mk_ndarray2 (1%nat, 1%nat) [[0]]))).
  - reflexivity.
  - cbn [set_Phi_shared fresh expand x_test].
    rewrite expand_polynomial_rows by lia. reflexivity.
Defined.

(** * Further properties of the notebook's code *)

(** ** The input grids *)

Lemma nth_linspace (start stop : R) (num k : nat) (d : R) :
  (k < num)%nat ->
  nth k (np.linspace start stop num) d
  = start + INR k * ((stop - start) / INR (num - 1)).
Proof.
  intros H. unfold np.linspace.
  rewrite (nth_indep _ d ((fun k => start + INR k
                                     * ((stop - start) / INR (num - 1))) 0%nat))
    by now rewrite length_map, length_seq.
  rewrite (map_nth (fun k => start + INR k * ((stop - start) / INR (num - 1)))).
  now rewrite seq_nth.
Qed.

(** [np.linspace(start, stop, num)] with at least two points has [num]
    entries, begins at [start], ends at [stop], stays between the two,
    and is strictly increasing when [start < stop]: the grids [x],
    [x_test] and the default centres are such grids on [0, 1]. *)
Theorem linspace_grid (start stop : R) (num : nat) :
  (2 <= num)%nat ->
  start <= stop ->
  length (np.linspace start stop num) = num /\
  nth 0 (np.linspace start stop num) 0 = start /\
  nth (num - 1) (np.linspace start stop num) 0 = stop /\
  (forall v, In v (np.linspace start stop num) -> start <= v <= stop) /\
  (start < stop ->
   forall i j, (i < j < num)%nat ->
     nth i (np.linspace start stop num) 0
     < nth j (np.linspace start stop num) 0).
Proof.
  intros Hn Hle.
  assert (Hpos : 0 < INR (num - 1)) by (apply lt_0_INR; lia).
  assert (Hinv : 0 < / INR (num - 1)) by now apply Rinv_0_lt_compat.
  split; [|split; [|split; [|split]]].
  - unfold np.linspace. now rewrite length_map, length_seq.
  - rewrite nth_linspace by lia. cbn [INR]. ring.
  - rewrite nth_linspace by lia. field. lra.
  - intros v Hv. unfold np.linspace in Hv. apply in_map_iff in Hv.
    destruct Hv as [k [<- Hk]]. apply in_seq in Hk.
    assert (H0 : 0 <= INR k) by apply pos_INR.
    assert (H1 : INR k <= INR (num - 1)) by (apply le_INR; lia).
    assert (H2 : 0 <= INR k * / INR (num - 1) <= 1).
    { split; [nra|].
      apply (Rmult_le_reg_r (INR (num - 1))); [assumption|].
      rewrite Rmult_assoc, Rinv_l by lra. lra. }
    unfold Rdiv.
    replace (INR k * ((stop - start) * / INR (num - 1)))
      with ((stop - start) * (INR k * / INR (num - 1))) by ring.
    split; nra.
  - intros Hlt i j Hij. rewrite !nth_linspace by lia.
    assert (Hi : INR i < INR j) by (apply lt_INR; lia).
    assert (Hstep : 0 < (stop - start) / INR (num - 1))
      by (unfold Rdiv; nra).
    nra.
Qed.

Lemma linspace_grid_witness :
  (2 <= data.N)%nat /\ 0 <= 1 /\
  length data.x = data.N /\
  nth 0 data.x 0 = 0 /\
  nth (data.N - 1) data.x 0 = 1 /\
  (forall v, In v data.x -> 0 <= v <= 1).
Proof.
  assert (Hn : (2 <= data.N)%nat) by (unfold data.N; lia).
  assert (Hle : 0 <= 1) by lra.
  destruct (linspace_grid 0 1 data.N Hn Hle) as [H1 [H2 [H3 [H4 _]]]].
  repeat split; try assumption; apply H4; assumption.
Defined.

(** ** The example dataset *)

Lemma combine_map_r {A B C : Type} (h : B -> C) (l : list A) (l' : list B) :
  combine l (map h l') = map (fun p => (fst p, h (snd p))) (combine l l').
Proof.
  revert l'. induction l as [|a l IH]; intros [|c l']; cbn; try reflexivity.
  now rewrite IH.
Qed.

Lemma map_fst_combine_seq {A B : Type} (g : A -> B) (l : list A) (o : nat) :
  map (fun p : A * nat => g (fst p)) (combine l (seq o (length l))) = map g l.
Proof.
  revert o. induction l as [|a l IH]; intros o; cbn; [reflexivity|].
  now rewrite IH.
Qed.

(** Without noise [f] is the sinusoid itself, whatever the random state:
    every value lies in [-1/2, 3/2].  It still takes [len(x)] variates
    from the random state. *)
Theorem f_noise_free (x0 : np.ndarray1) (rs : random.RandomState) :
  f x0 0 rs
  = Ok (map (fun v => 1 / 2 + sin (2 * PI * v)) x0,
        random.mk_RandomState (random.stream rs)
                              (random.pos rs + length x0)) /\
  forall y rs', f x0 0 rs = Ok (y, rs') ->
    length y = length x0 /\
    forall v, In v y -> - (1 / 2) <= v <= 3 / 2.
Proof.
  assert (H : f x0 0 rs
              = Ok (map (fun v => 1 / 2 + sin (2 * PI * v)) x0,
                    random.mk_RandomState (random.stream rs)
                                          (random.pos rs + length x0))).
  { unfold f. destruct (Rlt_dec 0 0) as [Hlt|_]; [lra|].
    unfold random.standard_normal. cbn [fst snd]. do 2 f_equal.
    rewrite combine_map_r, map_map. cbn [fst snd].
    rewrite <- (map_fst_combine_seq (fun v => 1 / 2 + sin (2 * PI * v)) x0 0).
    apply map_ext. intros [v k]. cbn [fst snd]. rewrite Rmult_0_l. lra. }
  split; [exact H|].
  intros y rs' Hy. rewrite H in Hy. injection Hy as <- _.
  split; [apply length_map|].
  intros v Hv. apply in_map_iff in Hv. destruct Hv as [u [<- _]].
  pose proof (SIN_bound (2 * PI * u)). lra.
Qed.

(** [f] raises [ValueError] for a negative noise, and otherwise returns
    as many targets as inputs, each the sinusoid at its input plus
    [noise] times the variate drawn for it. *)
Theorem f_noise (x0 : np.ndarray1) (noise0 : R) (rs : random.RandomState) :
  (noise0 < 0 -> f x0 noise0 rs = Raise ValueError) /\
  (0 <= noise0 ->
   exists y,
     f x0 noise0 rs
     = Ok (y, random.mk_RandomState (random.stream rs)
                                    (random.pos rs + length x0)) /\
     length y = length x0 /\
     forall i v, nth_error x0 i = Some v ->
       nth_error y i
       = Some (1 / 2 + sin (2 * PI * v)
               + noise0 * random.stream rs (random.pos rs + i))).
Proof.
  split.
  - intros H. unfold f. destruct (Rlt_dec noise0 0); [reflexivity | lra].
  - intros H. unfold f. destruct (Rlt_dec noise0 0) as [Hlt|_]; [lra|].
    eexists. split; [reflexivity|].
    unfold random.standard_normal. cbn [fst snd].
    rewrite combine_map_r, map_map. cbn [fst snd]. split.
    + now rewrite length_map, length_combine, length_seq, Nat.min_id.
    + intros i v Hi.
      apply (nth_error_combine_seq _ _ _ 0%nat) in Hi.
      rewrite (map_nth_error _ _ _ Hi). cbn [fst snd]. f_equal.
      rewrite Rplus_0_l. reflexivity.
Qed.

Lemma f_noise_witness :
  f [0; 1] (-1) zero_state = Raise ValueError /\
  exists y,
    f [0; 1] (3 / 10) zero_state
    = Ok (y, random.mk_RandomState (random.stream zero_state)
                                   (random.pos zero_state + length [0; 1])) /\
    length y = length [0; 1].
Proof.
  destruct (f_noise [0; 1] (-1) zero_state) as [H0 _].
  destruct (f_noise [0; 1] (3 / 10) zero_state) as [_ H1].
  split; [apply H0; lra|].
  destruct (H1 ltac:(lra)) as [y [Hy [Hl _]]].
  exists y. split; assumption.
Defined.

Lemma f_closed (x0 : np.ndarray1) (noise0 : R) (rs : random.RandomState) :
  0 <= noise0 ->
  f x0 noise0 rs
  = Ok (map (fun vk => 1 / 2 + sin (2 * PI * fst vk)
                       + noise0 * random.stream rs (random.pos rs + snd vk))
            (combine x0 (seq 0 (length x0))),
        random.mk_RandomState (random.stream rs)
                              (random.pos rs + length x0)).
Proof.
  intros H. unfold f. destruct (Rlt_dec noise0 0) as [Hlt|_]; [lra|].
  unfold random.standard_normal. cbn [fst snd]. do 2 f_equal.
  rewrite combine_map_r, map_map. apply map_ext. intros [v k].
  cbn [fst snd]. now rewrite Rplus_0_l.
Qed.

Lemma length_linspace (start stop : R) (num : nat) :
  length (np.linspace start stop num) = num.
Proof. unfold np.linspace. now rewrite length_map, length_seq. Qed.

(** The data cell never raises.  It leaves 10 inputs with 10 targets, 100
    query inputs and the noise 0.3; the ground truth [y_true] is the
    sinusoid on the query inputs exactly; and the random state has moved
    110 variates on: 10 for the targets and 100 for the noise-free ground
    truth. *)
Theorem data_cell_dataset (rs : random.RandomState) :
  exists nb y_true,
    data_cell rs = Ok (nb, y_true) /\
    length (x nb) = 10%nat /\
    length (t nb) = length (x nb) /\
    length (x_test nb) = 100%nat /\
    noise nb = 3 / 10 /\
    y_true = map (fun v => 1 / 2 + sin (2 * PI * v)) (x_test nb) /\
    random_state nb
    = random.mk_RandomState (random.stream rs) (random.pos rs + 110) /\
    Phi nb = None /\ model nb = None /\ trace nb = None.
Proof.
  unfold data_cell.
  rewrite (f_closed data.x data.noise rs) by (unfold data.noise; lra).
  cbn [bind fst snd].
  rewrite f_closed by lra. cbn [bind fst snd random.stream random.pos].
  eexists. eexists. split; [reflexivity|].
  cbn [fresh x t x_test noise random_state Phi model trace].
  assert (Hx : length data.x = 10%nat) by apply length_linspace.
  assert (Hq : length data.x_test = 100%nat) by apply length_linspace.
  split; [exact Hx|]. split.
  { now rewrite length_map, length_combine, length_seq, Nat.min_id. }
  split; [exact Hq|]. split; [reflexivity|]. split.
  { rewrite <- (map_fst_combine_seq
                  (fun v => 1 / 2 + sin (2 * PI * v)) data.x_test 0).
    apply map_ext. intros [v k]. cbn [fst snd]. rewrite Rmult_0_l. lra. }
  split.
  { rewrite Hx, Hq. f_equal. lia. }
  repeat split.
Qed.

(** ** More on the expansions *)

Lemma range_succ (degree : Z) :
  (0 <= degree)%Z ->
  np.range 1 (degree + 1 + 1) = np.range 1 (degree + 1) ++ [(degree + 1)%Z].
Proof.
  intros H. rewrite !range_from_1.
  replace (Z.to_nat (degree + 1)) with (S (Z.to_nat degree)) by lia.
  rewrite seq_S, map_app. cbn [map]. do 2 f_equal. lia.
Qed.

Lemma combine_map_self {A B : Type} (g : A -> B) (l : list A) :
  combine (map g l) l = map (fun v => (g v, v)) l.
Proof. induction l as [|a l IH]; cbn; [reflexivity | now rewrite IH]. Qed.

(** Raising the degree by one keeps the design matrix and appends one
    column, the next power of the inputs. *)
Theorem expand_polynomial_next_degree (x0 : np.ndarray1) (degree : Z)
    (Phi0 : np.ndarray2 R) :
  (1 <= degree)%Z ->
  expand_polynomial x0 degree = Ok Phi0 ->
  expand_polynomial x0 (degree + 1)
  = Ok (np.mk_ndarray2 (fst (np.shape Phi0), S (snd (np.shape Phi0)))
          (map (fun rv => fst rv ++ [snd rv ^ S (snd (np.shape Phi0))])
               (combine (np.rows Phi0) x0))).
Proof.
  intros Hd H. rewrite expand_polynomial_rows in H by assumption.
  injection H as <-. cbn [np.shape np.rows fst snd].
  rewrite expand_polynomial_rows by lia.
  replace (Z.to_nat (degree + 1)) with (S (Z.to_nat degree)) by lia.
  do 2 f_equal. rewrite combine_map_self, map_map. cbn [fst snd].
  apply map_ext. intros v.
  rewrite range_succ by lia. rewrite map_app. cbn [map]. do 2 f_equal.
  rewrite pow_powerRZ. f_equal. lia.
Qed.

Lemma expand_polynomial_next_degree_witness :
  (1 <= 1)%Z /\
  expand_polynomial [2; 3] 1
  = Ok (np.mk_ndarray2 (2%nat, 1%nat) [[powerRZ 2 1]; [powerRZ 3 1]]) /\
  expand_polynomial [2; 3] (1 + 1)
  = Ok (np.mk_ndarray2 (2%nat, 2%nat)
          [[powerRZ 2 1; 2 ^ 2]; [powerRZ 3 1; 3 ^ 2]]).
Proof.
  assert (H : expand_polynomial [2; 3] 1
              = Ok (np.mk_ndarray2 (2%nat, 1%nat)
                      [[powerRZ 2 1]; [powerRZ 3 1]])).
  { rewrite expand_polynomial_rows by lia. reflexivity. }
  split; [lia|]. split; [exact H|].
  apply (expand_polynomial_next_degree [2; 3] 1 _ ltac:(lia) H).
Defined.

Lemma pow_unit_interval (v : R) (n : nat) : 0 <= v <= 1 -> 0 <= v ^ n <= 1.
Proof.
  intros [H0 H1]. split; [now apply pow_le|].
  rewrite <- (pow1 n). apply pow_incr. lra.
Qed.

(** On inputs between 0 and 1, such as the notebook's grids, every entry
    of the polynomial design matrix lies between 0 and 1. *)
Theorem expand_polynomial_unit_interval (x0 : np.ndarray1) (degree : Z)
    (Phi0 : np.ndarray2 R) :
  (forall v, In v x0 -> 0 <= v <= 1) ->
  expand_polynomial x0 degree = Ok Phi0 ->
  forall r e, In r (np.rows Phi0) -> In e r -> 0 <= e <= 1.
Proof.
  intros Hx H r e Hr He.
  destruct (Z_lt_le_dec degree 1) as [Hlt|Hge].
  - rewrite expand_polynomial_raises in H by assumption. discriminate.
  - rewrite expand_polynomial_rows in H by assumption.
    injection H as <-. cbn [np.rows] in Hr.
    apply in_map_iff in Hr. destruct Hr as [v [<- Hv]].
    rewrite range_from_1, map_map in He.
    apply in_map_iff in He. destruct He as [k [<- _]].
    rewrite <- pow_powerRZ. apply pow_unit_interval. now apply Hx.
Qed.

Lemma expand_polynomial_unit_interval_witness :
  (forall v, In v data.x -> 0 <= v <= 1) /\
  exists Phi0,
    expand_polynomial data.x default_degree = Ok Phi0 /\
    forall r e, In r (np.rows Phi0) -> In e r -> 0 <= e <= 1.
Proof.
  assert (Hx : forall v, In v data.x -> 0 <= v <= 1).
  { intros v Hv. unfold data.x, np.linspace in Hv.
    apply in_map_iff in Hv. destruct Hv as [k [<- Hk]]. apply in_seq in Hk.
    unfold data.N in *. cbn [Nat.sub].
    assert (H0 : 0 <= INR k) by apply pos_INR.
    assert (H1 : INR k <= INR 9) by (apply le_INR; lia).
    replace (INR 9) with 9 in * by (cbn; lra). lra. }
  split; [exact Hx|].
  destruct (expand_polynomial_shape data.x default_degree
              ltac:(unfold default_degree; lia)) as [Phi0 [H _]].
  exists Phi0. split; [exact H|].
  apply (expand_polynomial_unit_interval data.x default_degree Phi0 Hx H).
Defined.

Lemma gaussian_density_pos (c b v : R) : 0 < b -> 0 < gaussian_density c b v.
Proof.
  intros Hb. unfold gaussian_density, gaussian_bump.
  pose proof sqrt_2PI_pos as Hq.
  apply Rdiv_lt_0_compat; [apply exp_pos | nra].
Qed.

(** For a positive bandwidth every entry of the Gaussian design matrix is
    a real number, never [nan], that is positive and at most
    1 / (sigma sqrt(2 pi)); for a bandwidth that is not positive every
    entry is [nan]. *)
Theorem expand_gaussian_entries (x0 mus : np.ndarray1) (sigma : R)
    (Phi0 : np.ndarray2 npfloat) :
  expand_gaussian x0 mus sigma = Ok Phi0 ->
  (0 < sigma ->
   forall r e, In r (np.rows Phi0) -> In e r ->
     exists v, e = finite v /\ 0 < v <= 1 / (sigma * sqrt (2 * PI))) /\
  (sigma <= 0 ->
   forall r e, In r (np.rows Phi0) -> In e r -> e = nan).
Proof.
  intros H.
  assert (Hne : mus <> []) by (intros ->; discriminate).
  rewrite expand_gaussian_rows in H by assumption.
  injection H as <-. cbn [np.rows]. split.
  - intros Hs r e Hr He.
    apply in_map_iff in Hr. destruct Hr as [v [<- _]].
    apply in_map_iff in He. destruct He as [c [<- _]].
    rewrite norm_pdf_density by assumption.
    exists (gaussian_density c sigma v). split; [reflexivity|].
    split; [now apply gaussian_density_pos|].
    unfold gaussian_density.
    pose proof (gaussian_bump_le_1 c sigma v Hs) as Hb.
    pose proof sqrt_2PI_pos as Hq.
    assert (Hden : 0 < / (sigma * sqrt (2 * PI)))
      by (apply Rinv_0_lt_compat; nra).
    unfold Rdiv. nra.
  - intros Hs r e Hr He.
    apply in_map_iff in Hr. destruct Hr as [v [<- _]].
    apply in_map_iff in He. destruct He as [c [<- _]].
    now apply norm_pdf_bad_scale.
Qed.

Lemma expand_gaussian_entries_witness :
  exists Phi0,
    expand_gaussian [0; 1] [0; 1 / 2] (3 / 10) = Ok Phi0 /\
    forall r e, In r (np.rows Phi0) -> In e r ->
      exists v, e = finite v /\ 0 < v <= 1 / (3 / 10 * sqrt (2 * PI)).
Proof.
  eexists. split; [apply expand_gaussian_rows; discriminate|].
  destruct (expand_gaussian_entries [0; 1] [0; 1 / 2] (3 / 10) _
              (expand_gaussian_rows [0; 1] [0; 1 / 2] (3 / 10)
                 ltac:(discriminate))) as [H _].
  apply H. lra.
Defined.

(** The Gaussian basis function is symmetric about its centre. *)
Lemma gaussian_density_symmetric (c b d : R) :
  gaussian_density c b (c + d) = gaussian_density c b (c - d).
Proof.
  unfold gaussian_density, gaussian_bump. do 3 f_equal. ring.
Qed.

(** With the default arguments the design matrix has 3 columns for the
    polynomial expansion and 9 for the Gaussian one, one row per input,
    and the model built on the polynomial one declares [w_r] with
    shape 3. *)
Theorem default_expansions (x0 : np.ndarray1) (noise0 : R)
    (t0 : np.ndarray1) :
  (exists Phi0,
      expand_polynomial x0 default_degree = Ok Phi0 /\
      np.shape Phi0 = (length x0, 3%nat) /\
      np.well_shaped Phi0 /\
      pm.w_r_shape (build_model Phi0 noise0 t0) = 3%nat) /\
  (exists Phi_g,
      expand_gaussian x0 default_mus default_sigma = Ok Phi_g /\
      np.shape Phi_g = (length x0, 9%nat) /\
      np.well_shaped Phi_g).
Proof.
  split.
  - destruct (expand_polynomial_shape x0 default_degree
                ltac:(unfold default_degree; lia)) as [Phi0 [H [Hs Hw]]].
    exists Phi0. split; [exact H|]. split; [exact Hs|]. split; [exact Hw|].
    cbn [build_model pm.w_r_shape]. now rewrite Hs.
  - assert (Hlen : length default_mus = 9%nat) by apply length_linspace.
    assert (Hne : default_mus <> []).
    { intros E. rewrite E in Hlen. discriminate. }
    eexists. split; [now apply expand_gaussian_rows|].
    rewrite Hlen. split; [reflexivity|].
    rewrite <- Hlen.
    apply (pointwise_well_shaped
             (fun v c => stats.norm_pdf c default_sigma v)).
Qed.

(** ** No input *)

(** An empty input does not make the expansions raise: the design matrix
    has no rows and keeps its column count.  On it, with no targets, the
    log joint density of the model is its prior part alone. *)
Theorem empty_input (degree : Z) (mus : np.ndarray1) (sigma noise0 w0 : R)
    (w : list R) :
  (1 <= degree)%Z ->
  mus <> [] ->
  length w = Z.to_nat degree ->
  expand_polynomial [] degree
  = Ok (np.mk_ndarray2 (0%nat, Z.to_nat degree) []) /\
  expand_gaussian [] mus sigma
  = Ok (np.mk_ndarray2 (0%nat, length mus) []) /\
  pm.logp (build_model (np.mk_ndarray2 (0%nat, Z.to_nat degree) [])
                       noise0 [])
          (theano.mk_shared (np.mk_ndarray2 (0%nat, Z.to_nat degree) []))
          (pm.mk_point w0 w)
  = Ok (pm.LogP (normal_logpdf 0 10 w0
                 + Rsum (map (normal_logpdf 0 10) w))).
Proof.
  intros Hd Hne Hw. split; [|split].
  - now rewrite expand_polynomial_rows.
  - now rewrite expand_gaussian_rows.
  - unfold pm.logp, build_model.
    cbn [pm.mu pm.w_0_dist pm.w_r_dist pm.t_obs_sigma pm.observed
         pm.w_0 pm.w_r].
    rewrite mu_rows; [| split; [reflexivity | constructor] | exact Hw].
    cbn [bind np.rows map length Nat.eqb combine].
    rewrite Normal_logp_pdf by lra.
    rewrite (lp_sum_LogP (normal_logpdf 0 10))
      by (intros; apply Normal_logp_pdf; lra).
    cbn [pm.lp_sum fold_right pm.lp_add]. do 2 f_equal. ring.
Qed.

Lemma empty_input_witness :
  (1 <= 2)%Z /\ [0] <> [] /\ length [1; 2] = Z.to_nat 2 /\
  expand_polynomial [] 2 = Ok (np.mk_ndarray2 (0%nat, Z.to_nat 2) []) /\
  expand_gaussian [] [0] 1 = Ok (np.mk_ndarray2 (0%nat, length [0]) []).
Proof.
  split; [lia|]. split; [discriminate|]. split; [reflexivity|].
  destruct (empty_input 2 [0] 1 (3 / 10) 0 [1; 2] ltac:(lia)
              ltac:(discriminate) eq_refl) as [H1 [H2 _]].
  split; assumption.
Defined.

(** ** Shapes that do not fit *)






(** ** Cells run out of order, or again *)

(** On a notebook where only the data are bound, the inference cell, the
    prediction cell and the summary cell raise [NameError] and bind
    nothing.  When the model cell has run but there is no trace, the
    prediction cell raises [NameError] only after it has replaced the
    value of the shared tensor by the query design matrix. *)
Theorem cells_out_of_order (pm_sample : sampler) (degree : Z) (noise0 : R)
    (x0 t0 xt : np.ndarray1) (rs : random.RandomState) (nb : notebook) :
  run (inference_cell pm_sample) (fresh degree noise0 x0 t0 xt rs)
  = (fresh degree noise0 x0 t0 xt rs, Some NameError) /\
  run prediction_cell (fresh degree noise0 x0 t0 xt rs)
  = (fresh degree noise0 x0 t0 xt rs, Some NameError) /\
  run summary_cell (fresh degree noise0 x0 t0 xt rs)
  = (fresh degree noise0 x0 t0 xt rs, Some NameError) /\
  (forall ps v,
      Phi_shared nb = Some ps ->
      trace nb = None ->
      expand nb (x_test nb) = Ok v ->
      run prediction_cell nb
      = (set_Phi_shared nb (theano.mk_shared v), Some NameError)).
Proof.
  repeat split.
  intros ps v Hps Htr Hv.
  unfold prediction_cell, stmt_set_value. cbn [run].
  rewrite Hps, Hv. cbn [bind]. unfold stmt_predict. nb_simpl.
  rewrite Htr. reflexivity.
Qed.

Lemma cells_out_of_order_witness :
  exists nb1,
    run model_cell (fresh 1 (3 / 10) [0] [1] [1; 2] zero_state)
    = (nb1, None) /\
    run prediction_cell nb1
    = (set_Phi_shared nb1
         (theano.mk_shared
            (np.mk_ndarray2 (2%nat, 1%nat) [[powerRZ 1 1]; [powerRZ 2 1]])),
       Some NameError).
Proof.
  eexists. split.
  - unfold model_cell. cbn [run]. unfold stmt_Phi.
    cbn [fresh expand x]. rewrite expand_polynomial_rows by lia.
    cbn [bind]. unfold stmt_Phi_shared. nb_simpl.
    unfold stmt_model. nb_simpl. reflexivity.
  - match goal with |- run _ ?n = _ =>
      destruct (cells_out_of_order init_sampler 1 (3 / 10) [0] [1] [1; 2]
                  zero_state n) as [_ [_ [_ H]]]
    end.
    apply (H (theano.mk_shared
                (np.mk_ndarray2 (length [0], Z.to_nat 1)
                   (map (fun v => map (fun p => powerRZ v p)
                                      (np.range 1 (1 + 1))) [0])))).
    + reflexivity.
    + reflexivity.
    + nb_simpl. cbn [fresh expand x_test].
      rewrite expand_polynomial_rows by lia. reflexivity.
Defined.

(** Running the model cell again, for instance after the prediction
    cell, binds [Phi], a new shared tensor holding the training design
    matrix, and the model, whatever they were before; it leaves the
    trace, the predictive samples and the random state as they are; and
    running it once more changes nothing. *)
Theorem model_cell_rebinds (nb : notebook) (v : np.ndarray2 R) :
  expand nb (x nb) = Ok v ->
  exists nb',
    run model_cell nb = (nb', None) /\
    Phi nb' = Some v /\
    Phi_shared nb' = Some (theano.mk_shared v) /\
    model nb' = Some (build_model v (noise nb) (t nb)) /\
    trace nb' = trace nb /\
    predictive_samples nb' = predictive_samples nb /\
    random_state nb' = random_state nb /\
    run model_cell nb' = (nb', None).
Proof.
  intros Hv. eexists. split.
  - unfold model_cell. cbn [run]. unfold stmt_Phi. rewrite Hv.
    cbn [bind]. unfold stmt_Phi_shared. nb_simpl.
    unfold stmt_model. nb_simpl. reflexivity.
  - nb_simpl. repeat (split; [reflexivity|]).
    unfold model_cell. cbn [run]. unfold stmt_Phi. nb_simpl. rewrite Hv.
    cbn [bind]. unfold stmt_Phi_shared. nb_simpl.
    unfold stmt_model. nb_simpl. reflexivity.
Qed.

Lemma model_cell_rebinds_witness :
  exists nb',
    run model_cell
        (set_Phi_shared (fresh 1 (3 / 10) [2] [1] [1; 2] zero_state)
           (theano.mk_shared (np.mk_ndarray2 (1%nat, 1%nat) [[0]])))
    = (nb', None) /\
    Phi_shared nb'
    = Some (theano.mk_shared
              (np.mk_ndarray2 (1%nat, 1%nat) [[powerRZ 2 1]])).
Proof.
  destruct (model_cell_rebinds
              (set_Phi_shared (fresh 1 (3 / 10) [2] [1] [1; 2] zero_state)
                 (theano.mk_shared (np.mk_ndarray2 (1%nat, 1%nat) [[0]])))
              (np.mk_ndarray2 (1%nat, 1%nat) [[powerRZ 2 1]]))
    as [nb' [H1 [_ [H2 _]]]].
  - nb_simpl. cbn [fresh expand x]. rewrite expand_polynomial_rows by lia.
    reflexivity.
  - exists nb'. split; assumption.
Defined.

(** ** Summary of the predictive samples *)

Lemma sum_repeat (c : R) (k : nat) :
  fold_right Rplus 0 (repeat c k) = INR k * c.
Proof.
  induction k as [|k IH].
  - cbn. ring.
  - cbn [repeat fold_right]. rewrite IH, S_INR. ring.
Qed.

Lemma map_nth_seq (v : list R) (d : R) :
  map (fun j => nth j v d) (seq 0 (length v)) = v.
Proof.
  induction v as [|a v IH]; [reflexivity|].
  cbn [length seq map nth]. f_equal.
  rewrite <- seq_shift, map_map. exact IH.
Qed.

Lemma map_to_repeat {A : Type} (g : A -> R) (l : list A) (c : R) :
  (forall a, g a = c) -> map g l = repeat c (length l).
Proof.
  intros H. induction l as [|a l IH]; cbn; [reflexivity|].
  now rewrite H, IH.
Qed.

Lemma np_asarray_repeat (v : list R) (n : nat) :
  np_asarray (repeat v (S n))
  = np.mk_ndarray2 (S n, length v) (repeat v (S n)).
Proof. unfold np_asarray. now rewrite repeat_length. Qed.

(** The mean and the standard deviation over axis 0 have one entry per
    column, no standard deviation is negative, so the band from [m - s]
    to [m + s] is never inverted; and when all the rows are one and the
    same row, the mean is that row and the standard deviation is zero. *)
Theorem summary_statistics (a : np.ndarray2 R) (v : list R) (n : nat) :
  length (np_mean_axis0 a) = snd (np.shape a) /\
  length (np_std_axis0 a) = snd (np.shape a) /\
  (forall e, In e (np_std_axis0 a) -> 0 <= e) /\
  (forall j, nth j (np_mean_axis0 a) 0 - nth j (np_std_axis0 a) 0
             <= nth j (np_mean_axis0 a) 0 + nth j (np_std_axis0 a) 0) /\
  np_mean_axis0 (np_asarray (repeat v (S n))) = v /\
  np_std_axis0 (np_asarray (repeat v (S n))) = repeat 0 (length v).
Proof.
  assert (Hpos : forall e, In e (np_std_axis0 a) -> 0 <= e).
  { intros e He. unfold np_std_axis0 in He. apply in_map_iff in He.
    destruct He as [j [<- _]]. apply sqrt_pos. }
  assert (HS : INR (S n) <> 0) by (apply not_0_INR; discriminate).
  split; [apply length_np_mean_axis0|].
  split; [unfold np_std_axis0; now rewrite length_map, length_seq|].
  split; [exact Hpos|]. split; [|split].
  - intros j.
    assert (H : 0 <= nth j (np_std_axis0 a) 0).
    { destruct (Nat.lt_ge_cases j (length (np_std_axis0 a))) as [Hlt|Hge].
      - apply Hpos. now apply nth_In.
      - rewrite nth_overflow by assumption. lra. }
    lra.
  - rewrite np_asarray_repeat. unfold np_mean_axis0, np.column.
    cbn [np.shape np.rows fst snd].
    rewrite <- (map_nth_seq v 0) at 2. apply map_ext. intros j.
    rewrite map_repeat, sum_repeat. field. exact HS.
  - rewrite np_asarray_repeat. unfold np_std_axis0, np.column.
    cbn [np.shape np.rows fst snd].
    replace (repeat 0 (length v))
      with (repeat 0 (length (seq 0 (length v))))
      by now rewrite length_seq.
    apply map_to_repeat. intros j.
    rewrite map_repeat, sum_repeat.
    replace (INR (S n) * nth j v 0 / INR (S n)) with (nth j v 0)
      by (field; exact HS).
    rewrite map_repeat, sum_repeat.
    replace (INR (S n) * ((nth j v 0 - nth j v 0) * (nth j v 0 - nth j v 0))
             / INR (S n)) with 0 by (field; exact HS).
    apply sqrt_0.
Qed.

(** ** Prediction without noise, and the random state *)

Lemma ppc_loop_one_point_noiseless (Phi0 Phi_q : np.ndarray2 R)
    (t0 : np.ndarray1) (p : pm.point) (indices : list nat)
    (rs : random.RandomState) :
  np.well_shaped Phi_q ->
  length (pm.w_r p) = snd (np.shape Phi_q) ->
  exists rs',
    pm.ppc_loop [p] (build_model Phi0 0 t0) (theano.mk_shared Phi_q)
                indices rs
    = Ok (repeat (map (fun r => pm.w_0 p + dot_product (pm.w_r p) r)
                      (np.rows Phi_q))
                 (length indices),
          rs').
Proof.
  intros Hwf Hw. revert rs.
  induction indices as [|i indices IH]; intros rs.
  - exists rs. reflexivity.
  - cbn [pm.ppc_loop length]. rewrite Nat.mod_1_r. cbn [nth_error].
    rewrite (draw_t_obs_rows Phi0 Phi_q 0 t0 p rs Hwf Hw).
    cbn [bind fst snd].
    destruct (IH (random.mk_RandomState (random.stream rs)
                    (random.pos rs + fst (np.shape Phi_q)))) as [rs' Hrs'].
    rewrite Hrs'. cbn [bind fst snd repeat]. exists rs'.
    do 3 f_equal.
    destruct Hwf as [Hrows _]. rewrite <- Hrows.
    rewrite <- (map_fst_combine_seq
                  (fun r => pm.w_0 p + dot_product (pm.w_r p) r)
                  (np.rows Phi_q) 0).
    apply map_ext. intros [r k]. unfold pm.Normal_random.
    cbn [pm.Normal_mu pm.Normal_sigma fst snd]. ring.
Qed.

(** With noise 0 and a posterior of one point, every predictive draw is
    the model's mean [w_0 + w_r . phi_k] at the query rows, whatever the
    random state; hence the mean of the predictive samples is that mean
    and their standard deviation is zero. *)
Theorem noiseless_prediction (Phi0 Phi_q : np.ndarray2 R) (t0 : np.ndarray1)
    (p : pm.point) (n : nat) (rs : random.RandomState) :
  np.well_shaped Phi_q ->
  length (pm.w_r p) = snd (np.shape Phi_q) ->
  exists out rs',
    pm.sample_posterior_predictive [p] (build_model Phi0 0 t0)
                                   (theano.mk_shared Phi_q) (S n) rs
    = Ok (out, rs') /\
    (forall row, In row out ->
       row = map (fun r => pm.w_0 p + dot_product (pm.w_r p) r)
                 (np.rows Phi_q)) /\
    np_mean_axis0 (np_asarray out)
    = map (fun r => pm.w_0 p + dot_product (pm.w_r p) r) (np.rows Phi_q) /\
    np_std_axis0 (np_asarray out) = repeat 0 (fst (np.shape Phi_q)).
Proof.
  intros Hwf Hw. unfold pm.sample_posterior_predictive.
  destruct (ppc_loop_one_point_noiseless Phi0 Phi_q t0 p (seq 0 (S n)) rs
              Hwf Hw) as [rs' H].
  rewrite length_seq in H.
  eexists. exists rs'. split; [exact H|]. split; [|split].
  - intros row Hrow. now apply repeat_spec in Hrow.
  - rewrite np_asarray_repeat. unfold np_mean_axis0, np.column.
    cbn [np.shape np.rows fst snd].
    set (v := map (fun r => pm.w_0 p + dot_product (pm.w_r p) r)
                  (np.rows Phi_q)).
    rewrite <- (map_nth_seq v 0) at 2. apply map_ext. intros j.
    rewrite map_repeat, sum_repeat. field.
    apply not_0_INR. discriminate.
  - rewrite np_asarray_repeat. unfold np_std_axis0, np.column.
    cbn [np.shape np.rows fst snd].
    set (v := map (fun r => pm.w_0 p + dot_product (pm.w_r p) r)
                  (np.rows Phi_q)).
    assert (HS : INR (S n) <> 0) by (apply not_0_INR; discriminate).
    assert (Hlen : length v = fst (np.shape Phi_q)).
    { unfold v. rewrite length_map. apply Hwf. }
    rewrite <- Hlen.
    replace (repeat 0 (length v))
      with (repeat 0 (length (seq 0 (length v))))
      by now rewrite length_seq.
    apply map_to_repeat. intros j.
    rewrite map_repeat, sum_repeat.
    replace (INR (S n) * nth j v 0 / INR (S n)) with (nth j v 0)
      by (field; exact HS).
    rewrite map_repeat, sum_repeat.
    replace (INR (S n) * ((nth j v 0 - nth j v 0) * (nth j v 0 - nth j v 0))
             / INR (S n)) with 0 by (field; exact HS).
    apply sqrt_0.
Qed.

Lemma noiseless_prediction_witness :
  np.well_shaped (np.mk_ndarray2 (2%nat, 1%nat) [[0]; [1]]) /\
  exists out rs',
    pm.sample_posterior_predictive
      [pm.mk_point 1 [2]]
      (build_model (np.mk_ndarray2 (1%nat, 1%nat) [[0]]) 0 [1])
      (theano.mk_shared (np.mk_ndarray2 (2%nat, 1%nat) [[0]; [1]]))
      3 zero_state
    = Ok (out, rs') /\
    np_std_axis0 (np_asarray out) = [0; 0].
Proof.
  assert (Hwf : np.well_shaped (np.mk_ndarray2 (2%nat, 1%nat) [[0]; [1]])).
  { split; [reflexivity | repeat constructor]. }
  split; [exact Hwf|].
  destruct (noiseless_prediction (np.mk_ndarray2 (1%nat, 1%nat) [[0]])
              (np.mk_ndarray2 (2%nat, 1%nat) [[0]; [1]]) [1]
              (pm.mk_point 1 [2]) 2 zero_state Hwf eq_refl)
    as [out [rs' [H1 [_ [_ H2]]]]].
  exists out, rs'. split; assumption.
Defined.



(** ** The mean is linear in the parameters *)

Lemma dot_product_linear (a b : R) (w w' r : list R) :
  length w = length w' ->
  dot_product (map (fun p => a * fst p + b * snd p) (combine w w')) r
  = a * dot_product w r + b * dot_product w' r.
Proof.
  revert w' r. induction w as [|u w IH]; intros [|u' w'] r H;
    try discriminate.
  - unfold dot_product. cbn. ring.
  - destruct r as [|c r].
    + unfold dot_product. cbn. ring.
    + cbn [combine map fst snd]. rewrite !dot_product_cons.
      rewrite IH by (cbn in H; lia). ring.
Qed.

(** The model's mean is linear in the parameters: at the combination
    [a (w0, w) + b (w0', w')] it is the same combination of the two
    means, observation by observation. *)
Theorem mu_linear (Phi0 : np.ndarray2 R) (a b w0 w0' : R) (w w' : list R) :
  np.well_shaped Phi0 ->
  length w = snd (np.shape Phi0) ->
  length w' = snd (np.shape Phi0) ->
  exists m1 m2,
    mu (theano.mk_shared Phi0) (pm.mk_point w0 w) = Ok m1 /\
    mu (theano.mk_shared Phi0) (pm.mk_point w0' w') = Ok m2 /\
    length m1 = fst (np.shape Phi0) /\
    length m2 = fst (np.shape Phi0) /\
    mu (theano.mk_shared Phi0)
       (pm.mk_point (a * w0 + b * w0')
                    (map (fun p => a * fst p + b * snd p) (combine w w')))
    = Ok (map (fun p => a * fst p + b * snd p) (combine m1 m2)).
Proof.
  intros Hwf Hw Hw'.
  exists (map (fun r => w0 + dot_product w r) (np.rows Phi0)).
  exists (map (fun r => w0' + dot_product w' r) (np.rows Phi0)).
  split; [now apply mu_rows|]. split; [now apply mu_rows|].
  destruct Hwf as [Hrows Hall].
  split; [now rewrite length_map|]. split; [now rewrite length_map|].
  rewrite mu_rows.
  - f_equal. rewrite combine_map_l, combine_map_r, map_map, map_map.
    cbn [fst snd].
    generalize (np.rows Phi0). intros l.
    induction l as [|r l IH]; cbn [combine map fst snd]; [reflexivity|].
    rewrite IH. f_equal.
    rewrite dot_product_linear by congruence. ring.
  - split; assumption.
  - rewrite length_map, length_combine, Hw, Hw'. apply Nat.min_id.
Qed.

Lemma mu_linear_witness :
  np.well_shaped (np.mk_ndarray2 (2%nat, 1%nat) [[0]; [1]]) /\
  exists m1 m2,
    mu (theano.mk_shared (np.mk_ndarray2 (2%nat, 1%nat) [[0]; [1]]))
       (pm.mk_point 1 [2]) = Ok m1 /\
    mu (theano.mk_shared (np.mk_ndarray2 (2%nat, 1%nat) [[0]; [1]]))
       (pm.mk_point 0 [1]) = Ok m2 /\
    mu (theano.mk_shared (np.mk_ndarray2 (2%nat, 1%nat) [[0]; [1]]))
       (pm.mk_point (2 * 1 + 3 * 0)
                    (map (fun p => 2 * fst p + 3 * snd p)
                         (combine [2] [1])))
    = Ok (map (fun p => 2 * fst p + 3 * snd p) (combine m1 m2)).
Proof.
  assert (Hwf : np.well_shaped (np.mk_ndarray2 (2%nat, 1%nat) [[0]; [1]])).
  { split; [reflexivity | repeat constructor]. }
  split; [exact Hwf|].
  destruct (mu_linear (np.mk_ndarray2 (2%nat, 1%nat) [[0]; [1]]) 2 3 1 0
              [2] [1] Hwf eq_refl eq_refl)
    as [m1 [m2 [H1 [H2 [_ [_ H3]]]]]].
  exists m1, m2. repeat split; assumption.
Defined.

(** The Gaussian basis function takes the same value at equal distances
    on either side of its centre, whatever the scale. *)
Theorem gaussian_basis_symmetric (c sigma d : R) :
  gaussian_basis [c + d] c sigma = gaussian_basis [c - d] c sigma.
Proof.
  unfold gaussian_basis, stats.norm_pdf. cbn [map].
  destruct (Rlt_dec 0 sigma) as [Hs|_]; [|reflexivity].
  do 3 f_equal. unfold stats._norm_pdf. do 2 f_equal.
  unfold Rdiv. ring.
Qed.

(** ** The notebook as it stands *)

Lemma polynomial_rows_unit (x0 : np.ndarray1) (degree : Z) :
  (forall v, In v x0 -> 0 <= v <= 1) ->
  forall r e,
    In r (map (fun v => map (fun p => powerRZ v p) (np.range 1 (degree + 1)))
              x0) ->
    In e r -> 0 <= e <= 1.
Proof.
  intros Hx r e Hr He.
  apply in_map_iff in Hr. destruct Hr as [v [<- Hv]].
  rewrite range_from_1, map_map in He.
  apply in_map_iff in He. destruct He as [k [<- _]].
  rewrite <- pow_powerRZ. apply pow_unit_interval. now apply Hx.
Qed.

Lemma linspace_unit (num : nat) :
  (2 <= num)%nat -> forall v, In v (np.linspace 0 1 num) -> 0 <= v <= 1.
Proof.
  intros Hn v Hv. unfold np.linspace in Hv. apply in_map_iff in Hv.
  destruct Hv as [k [<- Hk]]. apply in_seq in Hk.
  assert (Hpos : 0 < INR (num - 1)) by (apply lt_0_INR; lia).
  assert (Hinv : 0 < / INR (num - 1)) by now apply Rinv_0_lt_compat.
  assert (H0 : 0 <= INR k) by apply pos_INR.
  assert (H1 : INR k <= INR (num - 1)) by (apply le_INR; lia).
  assert (H2 : INR k * / INR (num - 1) <= 1).
  { apply (Rmult_le_reg_r (INR (num - 1))); [assumption|].
    rewrite Rmult_assoc, Rinv_l by lra. lra. }
  unfold Rdiv. rewrite Rminus_0_r, Rmult_1_l, Rplus_0_l. split; nra.
Qed.

(** With the data of the data cell and the default polynomial expansion,
    and a sampler that keeps PyMC3's contract, the notebook runs from the
    data cell to the summary without an exception: the design matrix is
    10 x 3 with entries between 0 and 1, every point of the trace has
    three weights, the predictive samples are 5000 x 100 and their mean
    has 100 entries. *)
Theorem notebook_runs (pm_sample : sampler) (rs : random.RandomState) :
  sampler_contract pm_sample ->
  exists nb0 y_true nb' Phi_v tr ps mv,
    data_cell rs = Ok (nb0, y_true) /\
    run_all pm_sample nb0 = (nb', None) /\
    Phi nb' = Some Phi_v /\
    np.shape Phi_v = (10%nat, 3%nat) /\
    (forall r e, In r (np.rows Phi_v) -> In e r -> 0 <= e <= 1) /\
    trace nb' = Some tr /\
    (forall p, In p tr -> length (pm.w_r p) = 3%nat) /\
    predictive_samples nb' = Some ps /\
    np.shape ps = (5000%nat, 100%nat) /\
    m nb' = Some mv /\
    length mv = 100%nat.
Proof.
  intros Hc. unfold data_cell.
  rewrite (f_closed data.x data.noise rs) by (unfold data.noise; lra).
  cbn [bind fst snd]. rewrite f_closed by lra. cbn [bind fst snd].
  match goal with
  | |- context [fresh ?d ?n ?x1 ?t1 ?xt ?r] =>
      destruct (run_all_completes pm_sample d n x1 t1 xt r
                  ltac:(unfold default_degree; lia) Hc)
        as [Phi_v [Phi_q [out [rs' [HPhi [Hsv [Hwv [_ [_ [Hlen [Hall Hrun]]]]]]]]]]]
  end.
  destruct (np_asarray_shape out 4999 (length data.x_test) Hlen Hall)
    as [Hso _].
  assert (Hx : length data.x = 10%nat) by apply length_linspace.
  assert (Hq : length data.x_test = 100%nat) by apply length_linspace.
  rewrite Hx in Hsv. rewrite Hq in Hso.
  do 2 eexists. eexists. exists Phi_v. eexists. exists (np_asarray out).
  exists (np_mean_axis0 (np_asarray out)).
  split; [reflexivity|]. split; [exact Hrun|].
  cbn [Phi trace predictive_samples m].
  split; [reflexivity|]. split; [exact Hsv|]. split.
  { intros r e Hr He.
    pose proof (linspace_unit data.N ltac:(unfold data.N; lia)) as Hunit.
    pose proof (expand_polynomial_rows data.x default_degree
                  ltac:(unfold default_degree; lia)) as Hclosed.
    assert (HPv : np.rows Phi_v
                  = map (fun v => map (fun p => powerRZ v p)
                                      (np.range 1 (default_degree + 1)))
                        data.x).
    { rewrite HPhi in Hclosed.
      now apply (f_equal (fun o => match o with
                                   | Ok a => np.rows a
                                   | Raise _ => []
                                   end)) in Hclosed. }
    rewrite HPv in Hr.
    apply (polynomial_rows_unit data.x default_degree Hunit r e Hr He). }
  split; [reflexivity|]. split.
  { intros p Hp.
    destruct (Hc (build_model Phi_v data.noise
                    (map (fun vk => 1 / 2 + sin (2 * PI * fst vk)
                                    + data.noise
                                      * random.stream rs
                                          (random.pos rs + snd vk))
                         (combine data.x (seq 0 (length data.x)))))
                 (theano.mk_shared Phi_v)
                 (random.mk_RandomState (random.stream rs)
                    (random.pos rs + length data.x
                     + length data.x_test))) as [_ Hsh].
    rewrite (Hsh p Hp). cbn [build_model pm.w_r_shape]. now rewrite Hsv. }
  split; [reflexivity|]. split; [exact Hso|]. split; [reflexivity|].
  rewrite length_np_mean_axis0, Hso. reflexivity.
Qed.

Lemma notebook_runs_witness :
  sampler_contract init_sampler /\
  exists nb0 y_true nb' ps,
    data_cell zero_state = Ok (nb0, y_true) /\
    run_all init_sampler nb0 = (nb', None) /\
    predictive_samples nb' = Some ps /\
    np.shape ps = (5000%nat, 100%nat).
Proof.
  split; [exact init_sampler_contract|].
  destruct (notebook_runs init_sampler zero_state init_sampler_contract)
    as [nb0 [y [nb' [Phi_v [tr [ps [mv [H1 [H2 [_ [_ [_ [_ [_ [H3 [H4 _]]]]]]]]]]]]]]]].
  exists nb0, y, nb', ps. repeat split; assumption.
Defined.
